(** * Flash-card pipeline of [src/app/api/flashcards/route.ts] and [src/app/actions.ts]

    A shallow embedding of the request handler [POST] (multipart parsing,
    PDF splitting, the sequential generation loop, CSV rendering) and of the
    response validation at the end of [generateFlashCardsFromPDF].

    JavaScript strings are sequences of UTF-16 code units; the handler's
    effects (exceptions, the calls to the generator) are threaded through a
    small state-and-exception monad. *)

From Stdlib Require Import List String Ascii NArith Arith Lia Bool.
From Stdlib Require PrimFloat Strings.Byte DecimalString.
Import ListNotations.

Set Implicit Arguments.
Set Warnings "-register-all".

(* ================================================================== *)
(** ** JavaScript strings *)

Module JsString.

Definition code_unit := N.
Definition t := list code_unit.

(** An ASCII literal as a JavaScript string. *)
Definition lit (s : string) : t := map N_of_ascii (list_ascii_of_string s).

Definition dquote : code_unit := 34%N.
Definition comma : code_unit := 44%N.
Definition newline : code_unit := 10%N.

Definition eqb (a b : t) : bool :=
  if list_eq_dec N.eq_dec a b then true else false.

(** [s.replace(/c/g, by)] for a pattern that is one literal code unit:
    the scan goes left to right, every match is replaced by [by] and every
    other code unit is copied. *)
Fixpoint replace_all (c : code_unit) (by_ : t) (s : t) : t :=
  match s with
  | [] => []
  | x :: rest =>
      if N.eqb x c then by_ ++ replace_all c by_ rest
      else x :: replace_all c by_ rest
  end.

(** [Array.prototype.join]: the result starts empty; before every element
    but the first the separator is appended, then the element. *)
Fixpoint join_from (sep : t) (acc : t) (k : nat) (l : list t) : t :=
  match l with
  | [] => acc
  | x :: rest =>
      let acc1 := if Nat.eqb k 0 then acc else acc ++ sep in
      join_from sep (acc1 ++ x) (S k) rest
  end.

Definition join (sep : t) (l : list t) : t := join_from sep [] 0 l.

End JsString.

Definition jsstring : Type := JsString.t.
Definition dq : JsString.code_unit := JsString.dquote.

(* ================================================================== *)
(** ** Flash cards and the CSV rendering (step 4 of [POST]) *)

Record Card := mkCard { question : jsstring; answer : jsstring }.

(** [escape]: every match of the one-character pattern (the double quote,
    flag [g]) is replaced by two double quotes. *)
Definition escape (s : jsstring) : jsstring :=
  JsString.replace_all dq [dq; dq] s.

(** The template literal of the [map] callback: quote, escaped question,
    quote, comma, quote, escaped answer, quote. *)
Definition csv_line (c : Card) : jsstring :=
  [dq] ++ escape (question c) ++ [dq; JsString.comma; dq]
       ++ escape (answer c) ++ [dq].

(** [allCards.map(...).join(newline)] *)
Definition csv (allCards : list Card) : jsstring :=
  JsString.join [JsString.newline] (map csv_line allCards).

(** *** The serializer as the specification words it

    One line per record, lines separated by one newline, nothing after the
    last line; inside a field a quote is written twice and every other code
    unit once. *)

Fixpoint spec_escape (s : jsstring) : jsstring :=
  match s with
  | [] => []
  | x :: rest =>
      if N.eqb x dq then dq :: dq :: spec_escape rest
      else x :: spec_escape rest
  end.

Definition spec_line (c : Card) : jsstring :=
  dq :: spec_escape (question c)
     ++ dq :: JsString.comma :: dq :: spec_escape (answer c) ++ [dq].

Fixpoint spec_serialize (r : list Card) : jsstring :=
  match r with
  | [] => []
  | c :: rest =>
      match rest with
      | [] => spec_line c
      | _ :: _ => spec_line c ++ JsString.newline :: spec_serialize rest
      end
  end.

(** Reading an escaped field back: [read_field s] consumes the text that
    follows an opening quote up to the closing quote (a quote that is not
    followed by a second one) and returns the field and the rest. *)
Fixpoint read_field (s : jsstring) : option (jsstring * jsstring) :=
  match s with
  | [] => None
  | x :: rest =>
      if N.eqb x dq then
        match rest with
        | [] => Some ([], [])
        | y :: rest' =>
            if N.eqb y dq then
              match read_field rest' with
              | Some (f, r) => Some (dq :: f, r)
              | None => None
              end
            else Some ([], rest)
        end
      else
        match read_field rest with
        | Some (f, r) => Some (x :: f, r)
        | None => None
        end
  end.

(** Collapsing the doubled quotes of an escaped field. *)
Fixpoint unescape (s : jsstring) : jsstring :=
  match s with
  | [] => []
  | x :: rest =>
      if N.eqb x dq then
        match rest with
        | [] => [x]
        | _ :: rest' => dq :: unescape rest'
        end
      else x :: unescape rest
  end.

Definition not_quote (x : JsString.code_unit) : bool := negb (N.eqb x dq).

(** What follows the closing quote of a record's answer. *)
Definition after_record (rest : list Card) : jsstring :=
  match rest with
  | [] => []
  | _ :: _ => JsString.newline :: spec_serialize rest
  end.

(* ================================================================== *)
(** ** JavaScript values and the Zod validators of [actions.ts] *)

Definition Buffer : Type := list Byte.byte.

(** What [JSON.parse] can return, plus [undefined], which reading a
    missing property yields. *)
Inductive value : Type :=
| VUndefined
| VNull
| VBool (b : bool)
| VNumber (n : PrimFloat.float)
| VString (s : jsstring)
| VArray (items : list value)
| VObject (props : list (jsstring * value)).

(** Property read [o.key]: the property's value, [undefined] when the
    object has no such property. *)
Fixpoint get_prop (props : list (jsstring * value)) (key : jsstring) : value :=
  match props with
  | [] => VUndefined
  | (k, v) :: rest => if JsString.eqb k key then v else get_prop rest key
  end.

Module z.

(** A schema is its [safeParse]: the typed output, or [None] where Zod
    reports issues (and [parse] throws a [ZodError]). *)
Definition schema (A : Type) : Type := value -> option A.

(** [z.string()]: strings only; nothing is coerced. *)
Definition string : schema jsstring :=
  fun v => match v with VString s => Some s | _ => None end.

Fixpoint all_some {A B} (f : A -> option B) (l : list A) : option (list B) :=
  match l with
  | [] => Some []
  | x :: rest =>
      match f x, all_some f rest with
      | Some y, Some ys => Some (y :: ys)
      | _, _ => None
      end
  end.

(** [z.array(item)]: an array all of whose elements pass [item]. *)
Definition array {A} (item : schema A) : schema (list A) :=
  fun v => match v with VArray items => all_some item items | _ => None end.

(** [z.object(shape)]: the input must be an object (not null, not an
    array); each key of the shape is read from the input and validated by
    its schema; the output holds the keys of the shape only, so that the
    input's other properties are dropped (Zod's default for unknown
    keys). [shape] receives the property reader of the input. *)
Definition object {A} (shape : (jsstring -> value) -> option A) : schema A :=
  fun v => match v with VObject props => shape (get_prop props) | _ => None end.

End z.

Notation "x <-? a ;; b" :=
  (match a with Some x => b | None => None end)
  (at level 61, a at next level, right associativity).

(** [FlashCardSchema = z.object({ question: z.string(), answer: z.string() })] *)
Definition FlashCardSchema : z.schema Card :=
  z.object (fun prop =>
    q <-? z.string (prop (JsString.lit "question")) ;;
    a <-? z.string (prop (JsString.lit "answer")) ;;
    Some (mkCard q a)).

Record FlashCards := mkFlashCards { flashcard : list Card }.

(** [FlashCardsArray = z.object({ flashcard: z.array(FlashCardSchema) })] *)
Definition FlashCardsArray : z.schema FlashCards :=
  z.object (fun prop =>
    cards <-? z.array FlashCardSchema (prop (JsString.lit "flashcard")) ;;
    Some (mkFlashCards cards)).

(** *** The shape the specification asks the adapter to enforce

    An object with a single key holding an array of objects, each with
    exactly the two string keys [question] and [answer]. *)

Definition strict_record (v : value) : Prop :=
  exists q a,
    v = VObject [(JsString.lit "question", VString q);
                 (JsString.lit "answer", VString a)]
    \/ v = VObject [(JsString.lit "answer", VString a);
                    (JsString.lit "question", VString q)].

Definition strict_shape (v : value) : Prop :=
  exists key items,
    v = VObject [(key, VArray items)] /\ Forall strict_record items.

(** The shape the validators accept: the named properties are present
    with the right types; other properties may be present too. *)

Definition has_card (v : value) (c : Card) : Prop :=
  exists props,
    v = VObject props
    /\ get_prop props (JsString.lit "question") = VString (question c)
    /\ get_prop props (JsString.lit "answer") = VString (answer c).

Definition has_cards (v : value) (cards : list Card) : Prop :=
  exists props items,
    v = VObject props
    /\ get_prop props (JsString.lit "flashcard") = VArray items
    /\ Forall2 has_card items cards.

(* ================================================================== *)
(** ** Exceptions, the platform, and the handler's monad *)

Inductive exn : Type :=
| Error (message : jsstring)   (* [new Error(message)], thrown by this code *)
| ZodError                     (* thrown by [schema.parse]; issues not kept *)
| Foreign (origin : string).   (* thrown inside a platform or library call *)

(** What the handler calls but does not define: pdf-lib's loader and
    writer, the generation service, and the JSON built-ins. A PDF document
    is the sequence of its pages. *)
Class Platform : Type := {
  World : Type;
  Page : Type;
  PDFDocument_load : Buffer -> exn + list Page;
  PDFDocument_save : list Page -> Buffer;
  generateContent : Buffer -> World -> (exn + option jsstring) * World;
  JSON_parse : jsstring -> exn + value;
  JSON_stringify : value -> jsstring
}.

Inductive outcome (A : Type) : Type :=
| Ok (a : A)
| Threw (e : exn)
| OutOfFuel.
Arguments Ok {A} a.
Arguments Threw {A} e.
Arguments OutOfFuel {A}.

Section Handler.

Context {P : Platform}.

(** The state threaded through a request: the outside world, and the
    documents handed to the generation service so far, oldest first. *)
Record state : Type := mkState { world : World; calls : list Buffer }.

Definition M (A : Type) : Type := state -> outcome A * state.

Definition ret {A} (a : A) : M A := fun s => (Ok a, s).
Definition throw {A} (e : exn) : M A := fun s => (Threw e, s).
Definition out_of_fuel {A} : M A := fun s => (OutOfFuel, s).
Definition bind {A B} (m : M A) (k : A -> M B) : M B :=
  fun s =>
    match m s with
    | (Ok a, s') => k a s'
    | (Threw e, s') => (Threw e, s')
    | (OutOfFuel, s') => (OutOfFuel, s')
    end.
Definition lift {A} (r : exn + A) : M A :=
  match r with inl e => throw e | inr a => ret a end.

Notation "x <- m ;; k" := (bind m (fun x => k))
  (at level 61, m at next level, right associativity).

(** *** pdf-lib documents *)

Record PDFDocument : Type := mkDoc { getPages : list Page }.

Definition getPageCount (doc : PDFDocument) : nat := List.length (getPages doc).
Definition PDFDocument_create : PDFDocument := mkDoc [].
Definition addPage (doc : PDFDocument) (p : Page) : PDFDocument :=
  mkDoc (getPages doc ++ [p]).
Definition save (doc : PDFDocument) : Buffer := PDFDocument_save (getPages doc).
Definition load (bytes : Buffer) : M PDFDocument :=
  match PDFDocument_load bytes with
  | inl e => throw e
  | inr pages => ret (mkDoc pages)
  end.

(** [newDoc.copyPages(doc, indices)]: the pages of [doc] at [indices], in
    the order of [indices]; an index that [doc] does not have throws. *)
Fixpoint copyPages (doc : PDFDocument) (indices : list nat) : M (list Page) :=
  match indices with
  | [] => ret []
  | i :: rest =>
      match nth_error (getPages doc) i with
      | None => throw (Foreign "copyPages")
      | Some p => ps <- copyPages doc rest ;; ret (p :: ps)
      end
  end.

(** [Array.from({ length }, (_, i) => f i)] *)
Definition Array_from {A} (len : nat) (f : nat -> A) : list A :=
  map f (seq 0 len).

(** *** [splitPdf]

    The [for] loop of [splitPdf]; [totalPages] is the variable of the
    enclosing handler, [start] and [chunks] are the loop's variables.
    Each turn of the loop uses one unit of fuel. *)
Fixpoint splitPdf_loop (fuel : nat) (totalPages : nat) (doc : PDFDocument)
         (chunkSize : nat) (start : nat) (chunks : list Buffer)
  : M (list Buffer) :=
  match fuel with
  | 0 => out_of_fuel
  | S fuel' =>
      if start <? totalPages then
        let end_ := Nat.min (start + chunkSize) totalPages in
        let newDoc := PDFDocument_create in
        pages <- copyPages doc (Array_from (end_ - start) (fun i => i + start)) ;;
        let newDoc := fold_left addPage pages newDoc in
        let chunkBytes := save newDoc in
        splitPdf_loop fuel' totalPages doc chunkSize (start + chunkSize)
                      (chunks ++ [chunkBytes])
      else ret chunks
  end.

Definition splitPdf (fuel : nat) (totalPages : nat) (doc : PDFDocument)
           (chunkSize : nat) : M (list Buffer) :=
  splitPdf_loop fuel totalPages doc chunkSize 0 [].

(** The default value of [splitPdf]'s parameter [chunkSize]. *)
Definition default_chunkSize : nat := 100.

(** [const pdfBuffers = totalPages > 500 ? await splitPdf(masterDoc) : [pdfBuffer]] *)
Definition pdfBuffers (fuel : nat) (pdfBuffer : Buffer) (masterDoc : PDFDocument)
  : M (list Buffer) :=
  let totalPages := getPageCount masterDoc in
  if 500 <? totalPages
  then splitPdf fuel totalPages masterDoc default_chunkSize
  else ret [pdfBuffer].

(** *** [generateFlashCardsFromPDF] *)

(** [await ai.models.generateContent(...)] followed by [response.text]:
    the document is recorded as handed to the service, and the service
    answers with a text, with no text, or by throwing. *)
Definition call_generateContent (pdf : Buffer) : M (option jsstring) :=
  fun s =>
    let s1 := mkState (world s) (calls s ++ [pdf]) in
    match generateContent pdf (world s1) with
    | (inl e, w) => (Threw e, mkState w (calls s1))
    | (inr text, w) => (Ok text, mkState w (calls s1))
    end.

(** [schema.parse(v)]: the validated value, or a thrown [ZodError]. *)
Definition zod_parse {A} (sch : z.schema A) (v : value) : M A :=
  match sch v with
  | Some a => ret a
  | None => throw ZodError
  end.

(** The tail of the function, from the request on: an absent or empty
    text throws [Error]; otherwise the text goes through [JSON.parse] and
    [FlashCardsArray.parse], either of which may throw, and the [flashcard]
    property of the validated object is returned. The document travels to
    the service in base64; the model leaves the encoding out, and the
    [console.log] of the text as well. *)
Definition generateFlashCardsFromPDF (pdf : Buffer) : M (list Card) :=
  text <- call_generateContent pdf ;;
  match text with
  | None | Some [] => throw (Error (JsString.lit "LLM response was empty"))
  | Some jsonText =>
      json <- lift (JSON_parse jsonText) ;;
      parsed <- zod_parse FlashCardsArray json ;;
      ret (flashcard parsed)
  end.

(** *** The generation loop (step 3 of [POST])

    [for (const buf of pdfBuffers) { const cards = await generate(buf);
    allCards.push(...cards) }], with the array [allCards] passed along.
    The handler runs it with [generateFlashCardsFromPDF]. *)
Fixpoint aggregate_from (generate : Buffer -> M (list Card))
         (bufs : list Buffer) (allCards : list Card) : M (list Card) :=
  match bufs with
  | [] => ret allCards
  | buf :: rest =>
      cards <- generate buf ;;
      aggregate_from generate rest (allCards ++ cards)
  end.

Definition aggregate (generate : Buffer -> M (list Card))
           (bufs : list Buffer) : M (list Card) :=
  aggregate_from generate bufs [].

(** *** Requests and responses *)

Record File : Type := mkFile { file_name : jsstring; file_bytes : Buffer }.

Inductive FormDataEntryValue : Type :=
| EntryFile (f : File)
| EntryString (s : jsstring).

Definition FormData : Type := list (jsstring * FormDataEntryValue).

(** [formData.get(name)]: the first entry of that name, [null] if none. *)
Fixpoint FormData_get (fd : FormData) (name : jsstring)
  : option FormDataEntryValue :=
  match fd with
  | [] => None
  | (k, v) :: rest => if JsString.eqb k name then Some v else FormData_get rest name
  end.

(** A request is what [req.formData()] yields for it. *)
Record NextRequest : Type := mkRequest { formData : exn + FormData }.

Record Response : Type := mkResponse {
  status : nat;
  headers : list (jsstring * jsstring);
  body : jsstring
}.

(** The message of the 400 response; its hyphen is U+2011. *)
Definition missing_file_message : jsstring :=
  JsString.lit "Missing PDF in form" ++ [8209%N]
    ++ JsString.lit "data under field 'file'.".

Definition missing_file_response : Response :=
  mkResponse 400
    [(JsString.lit "Content-Type", JsString.lit "application/json")]
    (JSON_stringify (VObject [(JsString.lit "error", VString missing_file_message)])).

Definition csv_response (allCards : list Card) : Response :=
  mkResponse 200
    [(JsString.lit "Content-Type", JsString.lit "text/csv; charset=utf-8");
     (JsString.lit "Content-Disposition",
      JsString.lit "attachment; filename=flashcards.csv")]
    (csv allCards).

(** *** [POST] *)
Definition POST (fuel : nat) (req : NextRequest) : M Response :=
  fd <- lift (formData req) ;;
  match FormData_get fd (JsString.lit "file") with
  | Some (EntryFile file) =>
      let arrayBuffer := file_bytes file in
      let pdfBuffer := arrayBuffer in
      masterDoc <- load arrayBuffer ;;
      bufs <- pdfBuffers fuel pdfBuffer masterDoc ;;
      allCards <- aggregate generateFlashCardsFromPDF bufs ;;
      ret (csv_response allCards)
  | _ => ret missing_file_response
  end.

(** *** Vocabulary of the statements *)

(** [runs generate bufs s batches s']: starting in [s], [generate] applied
    to the documents of [bufs] one after the other, each call starting
    where the one before ended, returns [batches] and ends in [s']. *)
Inductive runs (generate : Buffer -> M (list Card))
  : list Buffer -> state -> list (list Card) -> state -> Prop :=
| runs_nil : forall s, runs generate [] s [] s
| runs_cons : forall buf rest s cards s1 batches s2,
    generate buf s = (Ok cards, s1) ->
    runs generate rest s1 batches s2 ->
    runs generate (buf :: rest) s (cards :: batches) s2.

(** The pages [[a, b)] of a document. *)
Definition extract (doc : PDFDocument) (r : nat * nat) : PDFDocument :=
  mkDoc (firstn (snd r - fst r) (skipn (fst r) (getPages doc))).

End Handler.

(** [chain a ranges b]: the half-open ranges follow one another from [a]
    to [b], each non-empty and starting where the one before ends; they are
    then pairwise disjoint, in increasing order, and cover [[a, b)]. *)
Inductive chain : nat -> list (nat * nat) -> nat -> Prop :=
| chain_nil : forall a, chain a [] a
| chain_cons : forall a b rest c,
    a < b -> chain b rest c -> chain a ((a, b) :: rest) c.

Definition range_len (r : nat * nat) : nat := snd r - fst r.

(** The number of pages the specification gives the final chunk. *)
Definition final_len (pageCount chunkSize : nat) : nat :=
  if Nat.eqb (pageCount mod chunkSize) 0 then chunkSize
  else pageCount mod chunkSize.

(** Every range but the last has [chunkSize] pages and the last has
    [final_len]. *)
Fixpoint chunk_lengths (pageCount chunkSize : nat) (ranges : list (nat * nat))
  : Prop :=
  match ranges with
  | [] => True
  | [r] => range_len r = final_len pageCount chunkSize
  | r :: rest => range_len r = chunkSize /\ chunk_lengths pageCount chunkSize rest
  end.

(* ================================================================== *)
(** ** A small platform on which the handler runs

    Concrete stand-ins for the external calls, used to evaluate the handler
    on concrete requests: a document is a header byte followed by one byte
    per page; the service replays a script of answers; the JSON built-ins
    know the texts of the examples only. *)

Module Demo.

Definition header : Byte.byte := Byte.x25.

Definition demo_load (bytes : Buffer) : exn + list Byte.byte :=
  match bytes with
  | b :: pages =>
      if Byte.eqb b header then inr pages
      else inl (Foreign "PDFDocument.load")
  | [] => inl (Foreign "PDFDocument.load")
  end.

Definition demo_save (pages : list Byte.byte) : Buffer := header :: pages.

(** The world is the list of answers the service has yet to give. *)
Definition script : Type := list (exn + option jsstring).

Definition demo_generateContent (pdf : Buffer) (w : script)
  : (exn + option jsstring) * script :=
  match w with
  | [] => (inl (Foreign "generateContent"), [])
  | r :: rest => (r, rest)
  end.

Definition quoted (s : jsstring) : jsstring := [dq] ++ s ++ [dq].

(** The JSON text of an object holding [k] cards equal to [(q, a)],
    each with the further properties [extra], under the key [flashcard];
    [q] and [a] must need no JSON escapes. *)
Definition card_text (q a extra : jsstring) : jsstring :=
  JsString.lit "{" ++ quoted (JsString.lit "question") ++ JsString.lit ":"
    ++ quoted q ++ JsString.lit ","
    ++ quoted (JsString.lit "answer") ++ JsString.lit ":" ++ quoted a
    ++ extra ++ JsString.lit "}".

Definition cards_text (card : jsstring) : jsstring :=
  JsString.lit "{" ++ quoted (JsString.lit "flashcard") ++ JsString.lit ":["
    ++ card ++ JsString.lit "]}".

Definition card_value (q a : jsstring) (extra : list (jsstring * value)) : value :=
  VObject ((JsString.lit "question", VString q)
             :: (JsString.lit "answer", VString a) :: extra).

Definition cards_value (card : value) : value :=
  VObject [(JsString.lit "flashcard", VArray [card])].

Definition q1 : jsstring := JsString.lit "q1".
Definition a1 : jsstring := JsString.lit "a1".
Definition q2 : jsstring := JsString.lit "q2".
Definition a2 : jsstring := JsString.lit "a2".

Definition text1 : jsstring := cards_text (card_text q1 a1 []).
Definition text2 : jsstring := cards_text (card_text q2 a2 []).

(** A card with a third property, [source]. *)
Definition extra_text : jsstring :=
  cards_text (card_text q1 a1
    (JsString.lit "," ++ quoted (JsString.lit "source") ++ JsString.lit ":"
       ++ quoted (JsString.lit "p. 3"))).
Definition extra_value : value :=
  cards_value (card_value q1 a1
    [(JsString.lit "source", VString (JsString.lit "p. 3"))]).

Definition known_texts : list (jsstring * value) :=
  [(text1, cards_value (card_value q1 a1 []));
   (text2, cards_value (card_value q2 a2 []));
   (extra_text, extra_value)].

Fixpoint lookup_text (table : list (jsstring * value)) (text : jsstring)
  : exn + value :=
  match table with
  | [] => inl (Foreign "SyntaxError")
  | (t, v) :: rest => if JsString.eqb t text then inr v else lookup_text rest text
  end.

Definition demo_JSON_parse (text : jsstring) : exn + value :=
  lookup_text known_texts text.

Definition demo_JSON_stringify (v : value) : jsstring :=
  match v with
  | VObject [(k, VString s)] =>
      JsString.lit "{" ++ quoted k ++ JsString.lit ":" ++ quoted s
        ++ JsString.lit "}"
  | _ => JsString.lit "null"
  end.

#[export] Instance platform : Platform := {|
  World := script;
  Page := Byte.byte;
  PDFDocument_load := demo_load;
  PDFDocument_save := demo_save;
  generateContent := demo_generateContent;
  JSON_parse := demo_JSON_parse;
  JSON_stringify := demo_JSON_stringify
|}.

(** A document of [n] blank pages, and its bytes. *)
Definition blank (n : nat) : list Byte.byte := repeat Byte.x00 n.
Definition pdf_bytes (n : nat) : Buffer := demo_save (blank n).
Definition document (n : nat) : PDFDocument := mkDoc (P := platform) (blank n).

Definition upload (bytes : Buffer) : @NextRequest :=
  mkRequest (inr [(JsString.lit "file", EntryFile (mkFile (JsString.lit "notes.pdf") bytes))]).

Definition no_upload : @NextRequest := mkRequest (inr []).

Definition start (w : script) : state := mkState (P := platform) w [].

(** Two chunks and the cards the service's scripted answers hold. *)
Definition chunk1 : Buffer := pdf_bytes 1.
Definition chunk2 : Buffer := pdf_bytes 2.
Definition card1 : Card := mkCard q1 a1.
Definition card2 : Card := mkCard q2 a2.
Definition two_answers : script := [inr (Some text1); inr (Some text2)].

(** Seven answers, the fourth of which is a failure of the service. *)
Definition fourth_fails : script :=
  [inr (Some text1); inr (Some text1); inr (Some text1);
   inl (Foreign "503 Service Unavailable");
   inr (Some text2); inr (Some text2); inr (Some text2)].

(** The record of the specification's escaping example: the question is
    [say], a blank and [hi] in quotes; the answer is [ok]. *)
Definition say_hi : Card :=
  mkCard (JsString.lit "say " ++ quoted (JsString.lit "hi")) (JsString.lit "ok").

(** Its expected line: the question's quotes are doubled, and each field
    stands in quotes. *)
Definition say_hi_line : jsstring :=
  quoted (JsString.lit "say " ++ [dq; dq] ++ JsString.lit "hi" ++ [dq; dq])
    ++ [JsString.comma] ++ quoted (JsString.lit "ok").

(** Two results that a careless encoding would confuse: two plain records,
    and one record whose answer spells out the text between them. *)
Definition two_records : list Card :=
  [mkCard (JsString.lit "x") (JsString.lit "y");
   mkCard (JsString.lit "z") (JsString.lit "w")].

Definition one_record : list Card :=
  [mkCard (JsString.lit "x")
     (JsString.lit "y" ++ [dq; JsString.newline; dq] ++ JsString.lit "z"
        ++ [dq; JsString.comma; dq] ++ JsString.lit "w")].

End Demo.

(** A batch that holds at least one card. *)
Definition nonempty (batch : list Card) : bool :=
  match batch with [] => false | _ :: _ => true end.

(** What [generateFlashCardsFromPDF] throws for an absent or empty text. *)
Definition empty_response : exn := Error (JsString.lit "LLM response was empty").

(* ================================================================== *)
(** ** The schema sent to the service ([responseSchema] of [actions.ts])

    The structured-output schema is data: a type, the required keys, the
    schemas of named properties, the schema of array items. Of the [Type]
    enumeration the constant uses three members. *)

Inductive GType : Type := OBJECT | ARRAY | STRING.

Inductive Schema : Type :=
| Sch (type : GType) (required : list jsstring)
      (properties : list (jsstring * Schema)) (items : option Schema).

Definition string_schema : Schema := Sch STRING [] [] None.

Definition responseSchema : Schema :=
  Sch OBJECT [JsString.lit "flashcard"]
    [(JsString.lit "flashcard",
      Sch ARRAY [] []
        (Some (Sch OBJECT [JsString.lit "question"; JsString.lit "answer"]
                 [(JsString.lit "question", string_schema);
                  (JsString.lit "answer", string_schema)]
                 None)))]
    None.

(** [key in o] for an object's own properties. *)
Definition has_prop (props : list (jsstring * value)) (key : jsstring) : bool :=
  existsb (fun kv => JsString.eqb (fst kv) key) props.

Definition type_ok (t : GType) (v : value) : bool :=
  match t, v with
  | OBJECT, VObject _ => true
  | ARRAY, VArray _ => true
  | STRING, VString _ => true
  | _, _ => false
  end.

(** A value against a schema, read as the source's comment names it, in
    the JSON Schema way: [type] restricts the kind of value; [required]
    and [properties] speak about objects (a required key must be there, a
    named property that is there must fit its schema, other properties are
    free); [items] speaks about every element of an array. *)
Fixpoint conforms (sch : Schema) (v : value) {struct sch} : bool :=
  match sch with
  | Sch t required properties items =>
      type_ok t v
      && match v with
         | VObject props =>
             forallb (has_prop props) required
             && forallb
                  (fun ks =>
                     match ks with
                     | (k, s) =>
                         if has_prop props k then conforms s (get_prop props k)
                         else true
                     end)
                  properties
         | VArray elements =>
             match items with
             | Some s => forallb (conforms s) elements
             | None => true
             end
         | _ => true
         end
  end.

(* ================================================================== *)
(** ** The page's submit handler ([handleSubmit] of the upload page)

    What the handler does to the page is a sequence of events; [busy] is
    the component's state variable. The network and [URL.createObjectURL]
    are the browser's. A thrown value is known by its [message]. *)

Module Client.

Record thrown : Type := mkThrown { message : option jsstring }.

(** [new Error(message)] *)
Definition new_Error (m : jsstring) : thrown := mkThrown (Some m).

Record anchor : Type := mkAnchor { href : jsstring; download : jsstring }.

Inductive event : Type :=
| EvPreventDefault
| EvAlert (text : jsstring)
| EvSetBusy (b : bool)
| EvFetch (url : jsstring) (method : jsstring) (body : FormData)
| EvConsoleError (err : thrown)
| EvCreateObjectURL (blob : jsstring)
| EvAppendChild (a : anchor)
| EvClick (a : anchor)
| EvRemoveChild (a : anchor)
| EvRevokeObjectURL (url : jsstring).

Class Browser : Type := {
  Net : Type;
  fetch : jsstring -> jsstring -> FormData -> Net -> (thrown + Response) * Net;
  createObjectURL : jsstring -> jsstring
}.

(** [res.ok]: the status is in the range 200 to 299. *)
Definition ok (res : Response) : bool :=
  (200 <=? status res) && (status res <=? 299).

(** A number in a template literal: its decimal digits. *)
Definition decimal (n : nat) : jsstring :=
  JsString.lit (DecimalString.NilZero.string_of_uint (Nat.to_uint n)).

(** [data.append(name, value)]: a further entry, after the others. *)
Definition FormData_append (fd : FormData) (name : jsstring)
           (v : FormDataEntryValue) : FormData :=
  fd ++ [(name, v)].

(** The body of the request: [new FormData()] and
    [data.append(file, file, file.name)] under the name [file]. *)
Definition submitted_form (file : File) : FormData :=
  FormData_append [] (JsString.lit "file")
    (EntryFile (mkFile (file_name file) (file_bytes file))).

Section Page.

Context {B : Browser}.

Record page : Type := mkPage { busy : bool; net : Net; log : list event }.

Definition emit (evs : list event) (p : page) : page :=
  mkPage (busy p) (net p) (log p ++ evs).

(** [setBusy(b)] *)
Definition setBusy (b : bool) (p : page) : page :=
  mkPage b (net p) (log p ++ [EvSetBusy b]).

(** [await fetch(url, { method, body })] *)
Definition do_fetch (url method : jsstring) (body : FormData) (p : page)
  : (thrown + Response) * page :=
  let p1 := emit [EvFetch url method body] p in
  match fetch url method body (net p1) with
  | (r, n) => (r, mkPage (busy p1) n (log p1))
  end.

(** The download: an object URL for the response's blob, an invisible
    anchor that is appended, clicked and removed, and the URL's release. *)
Definition save_as_file (blob : jsstring) (p : page) : page :=
  let url := createObjectURL blob in
  let a := mkAnchor url (JsString.lit "flashcards.csv") in
  emit [EvCreateObjectURL blob; EvAppendChild a; EvClick a; EvRemoveChild a;
        EvRevokeObjectURL url] p.

(** The [try] block: it ends normally or by a thrown value. *)
Definition try_block (file : File) (p : page) : (thrown + unit) * page :=
  let p := setBusy true p in
  let data := submitted_form file in
  match do_fetch (JsString.lit "/api/flashcards") (JsString.lit "POST") data p with
  | (inl err, p) => (inl err, p)
  | (inr res, p) =>
      if negb (ok res) then
        let errorText := body res in
        (inl (new_Error (JsString.lit "Server responded " ++ decimal (status res)
                           ++ JsString.lit ": " ++ errorText)), p)
      else
        let blob := body res in
        (inr tt, save_as_file blob p)
  end.

Definition choose_first : jsstring := JsString.lit "Please choose a PDF first".
Definition went_wrong : jsstring :=
  JsString.lit "Something went wrong generating flash cards. Check console.".

(** [handleSubmit]; [file] is the component's state variable. *)
Definition handleSubmit (file : option File) (p : page) : page :=
  let p := emit [EvPreventDefault] p in
  match file with
  | None => emit [EvAlert choose_first] p
  | Some file =>
      let '(r, p) := try_block file p in
      let p :=
        match r with
        | inl err => emit [EvConsoleError err; EvAlert went_wrong] p
        | inr _ => p
        end in
      setBusy false p
  end.

Definition is_fetch (ev : event) : bool :=
  match ev with EvFetch _ _ _ => true | _ => false end.

Definition is_click (ev : event) : bool :=
  match ev with EvClick _ => true | _ => false end.

Definition is_alert (ev : event) : bool :=
  match ev with EvAlert _ => true | _ => false end.

(** *** Vocabulary of the statements about [handleSubmit] *)

Definition api : jsstring := JsString.lit "/api/flashcards".
Definition post : jsstring := JsString.lit "POST".

(** The events a submit adds to the log. *)
Definition added (file : option File) (p : page) : list event :=
  skipn (List.length (log p)) (log (handleSubmit file p)).

(** The error the handler throws for a response that is not ok. *)
Definition not_ok_error (res : Response) : thrown :=
  new_Error
    (JsString.lit "Server responded " ++ decimal (status res)
       ++ JsString.lit ": " ++ body res).

Definition failure_of (r : thrown + Response) : option thrown :=
  match r with
  | inl err => Some err
  | inr res => if ok res then None else Some (not_ok_error res)
  end.

End Page.

End Client.

(* ================================================================== *)
(** ** Further concrete scenarios *)

Module Scenario.

(** Seven answers of one card each. *)
Definition seven_answers : Demo.script := repeat (inr (Some Demo.text1)) 7.

(** The chunks of a document of 650 blank pages. *)
Definition chunks_650 : list Buffer :=
  repeat (Demo.pdf_bytes 100) 6 ++ [Demo.pdf_bytes 50].

(** A service that answers with no text. *)
Definition silent : Demo.script := [inr None].

(** A browser whose network answers every request with one response. *)
Definition browser (res : Response) : Client.Browser := {|
  Client.Net := unit;
  Client.fetch := fun _ _ _ n => (inr res, n);
  Client.createObjectURL := fun blob => JsString.lit "blob:" ++ blob
|}.

Definition notes : File := mkFile (JsString.lit "notes.pdf") (Demo.pdf_bytes 2).

Definition csv_200 : Response := csv_response [Demo.card1].

Definition error_500 : Response :=
  mkResponse 500 [] (JsString.lit "Internal Server Error").

Definition idle (B : Client.Browser) (n : Client.Net) : Client.page :=
  Client.mkPage false n [].

End Scenario.

(* ================================================================== *)
(** ** The serializer *)

Section Serializer.

Lemma escape_unfold_quote (rest : jsstring) :
  escape (dq :: rest) = dq :: dq :: escape rest.
Proof. reflexivity. Qed.

Lemma escape_unfold_other (x : JsString.code_unit) (rest : jsstring) :
  N.eqb x dq = false -> escape (x :: rest) = x :: escape rest.
Proof. intros H. unfold escape. simpl. rewrite H. reflexivity. Qed.

Lemma escape_is_spec_escape (s : jsstring) : escape s = spec_escape s.
Proof.
  induction s as [|x rest IH]; [reflexivity|].
  simpl. destruct (N.eqb x dq) eqn:E.
  - apply N.eqb_eq in E. subst x. rewrite escape_unfold_quote. now rewrite IH.
  - rewrite escape_unfold_other by exact E. now rewrite IH.
Qed.

Lemma csv_line_is_spec_line (c : Card) : csv_line c = spec_line c.
Proof.
  unfold csv_line, spec_line. rewrite !escape_is_spec_escape. reflexivity.
Qed.

Lemma unescape_escape (s : jsstring) : unescape (spec_escape s) = s.
Proof.
  induction s as [|x rest IH]; [reflexivity|].
  simpl. destruct (N.eqb x dq) eqn:E.
  - apply N.eqb_eq in E. subst x. change (N.eqb dq dq) with true. simpl.
    now rewrite IH.
  - simpl. rewrite E. now rewrite IH.
Qed.

Lemma escape_keeps_others (s : jsstring) :
  filter not_quote (spec_escape s) = filter not_quote s.
Proof.
  induction s as [|x rest IH]; [reflexivity|].
  simpl. unfold not_quote at 2. destruct (N.eqb x dq) eqn:E; simpl.
  - unfold not_quote at 1 2. change (N.eqb dq dq) with true. simpl. exact IH.
  - unfold not_quote at 1. rewrite E. simpl. now rewrite IH.
Qed.

Lemma escape_doubles_quotes (s : jsstring) :
  count_occ N.eq_dec (spec_escape s) dq = 2 * count_occ N.eq_dec s dq.
Proof.
  induction s as [|x rest IH]; [reflexivity|].
  simpl spec_escape. destruct (N.eqb x dq) eqn:E.
  - apply N.eqb_eq in E. subst x.
    rewrite !count_occ_cons_eq by reflexivity.
    unfold JsString.code_unit in *. lia.
  - apply N.eqb_neq in E.
    rewrite !count_occ_cons_neq by exact E. exact IH.
Qed.

(** [join] in closed form. *)
Lemma join_from_pos sep acc k l :
  JsString.join_from sep acc (S k) l
  = acc ++ List.concat (map (fun x => sep ++ x) l).
Proof.
  revert acc k. induction l as [|x rest IH]; intros acc k; simpl.
  - now rewrite app_nil_r.
  - rewrite IH. now rewrite <- !app_assoc.
Qed.

Lemma join_cons sep x l :
  JsString.join sep (x :: l) = x ++ List.concat (map (fun y => sep ++ y) l).
Proof. unfold JsString.join. simpl. apply join_from_pos. Qed.

Lemma spec_serialize_cons c rest :
  spec_serialize (c :: rest)
  = spec_line c
      ++ List.concat (map (fun y => [JsString.newline] ++ y) (map spec_line rest)).
Proof.
  revert c. induction rest as [|c' rest IH]; intros c.
  - simpl. now rewrite app_nil_r.
  - change (spec_serialize (c :: c' :: rest))
      with (spec_line c ++ JsString.newline :: spec_serialize (c' :: rest)).
    rewrite IH. reflexivity.
Qed.

Lemma csv_is_spec_serialize (r : list Card) : csv r = spec_serialize r.
Proof.
  destruct r as [|c rest]; [reflexivity|].
  unfold csv. simpl map. rewrite join_cons, spec_serialize_cons.
  rewrite csv_line_is_spec_line.
  assert (map csv_line rest = map spec_line rest) as E
    by (apply map_ext; intro; apply csv_line_is_spec_line).
  now rewrite E.
Qed.

Lemma spec_line_last c : exists body, spec_line c = body ++ [dq].
Proof.
  unfold spec_line.
  exists (dq :: spec_escape (question c)
            ++ dq :: JsString.comma :: dq :: spec_escape (answer c)).
  simpl. f_equal. rewrite <- app_assoc. reflexivity.
Qed.

Lemma last_app_nonempty {A} (l1 l2 : list A) d :
  l2 <> [] -> last (l1 ++ l2) d = last l2 d.
Proof.
  intros H. induction l1 as [|x l1 IH]; [reflexivity|].
  simpl. destruct (l1 ++ l2) eqn:E; [|exact IH].
  apply app_eq_nil in E. destruct E. contradiction.
Qed.

Lemma spec_serialize_last c rest d :
  last (spec_serialize (c :: rest)) d = dq.
Proof.
  revert c. induction rest as [|c' rest IH]; intros c.
  - change (spec_serialize [c]) with (spec_line c).
    destruct (spec_line_last c) as [b ->]. apply last_last.
  - change (spec_serialize (c :: c' :: rest))
      with (spec_line c ++ JsString.newline :: spec_serialize (c' :: rest)).
    specialize (IH c').
    destruct (spec_serialize (c' :: rest)) as [|y ys] eqn:E.
    + destruct rest; simpl in E; unfold spec_line in E; discriminate.
    + rewrite last_app_nonempty by discriminate.
      change (last (JsString.newline :: y :: ys) d) with (last (y :: ys) d).
      exact IH.
Qed.

End Serializer.

Section Decoding.

Lemma read_field_escape (s rest : jsstring) :
  hd_error rest <> Some dq ->
  read_field (spec_escape s ++ dq :: rest) = Some (s, rest).
Proof.
  intros Hrest. induction s as [|x s IH].
  - simpl. change (N.eqb dq dq) with true. cbv iota.
    destruct rest as [|y rest']; [reflexivity|].
    destruct (N.eqb y dq) eqn:E; [|reflexivity].
    apply N.eqb_eq in E. subst y. now elim Hrest.
  - simpl spec_escape. destruct (N.eqb x dq) eqn:E.
    + apply N.eqb_eq in E. subst x.
      change ((dq :: dq :: spec_escape s) ++ dq :: rest)
        with (dq :: dq :: (spec_escape s ++ dq :: rest)).
      simpl. change (N.eqb dq dq) with true. cbv iota.
      change (N.eqb JsString.dquote dq) with true. cbv iota.
      now rewrite IH.
    + change ((x :: spec_escape s) ++ dq :: rest)
        with (x :: (spec_escape s ++ dq :: rest)).
      simpl. rewrite E. now rewrite IH.
Qed.

Lemma spec_serialize_shape c rest :
  spec_serialize (c :: rest)
  = dq :: (spec_escape (question c)
             ++ dq :: JsString.comma :: dq
             :: (spec_escape (answer c) ++ dq :: after_record rest)).
Proof.
  destruct rest as [|c' rest].
  - reflexivity.
  - change (spec_serialize (c :: c' :: rest))
      with (spec_line c ++ JsString.newline :: spec_serialize (c' :: rest)).
    unfold spec_line, after_record. simpl. f_equal.
    rewrite <- !app_assoc. simpl. f_equal. f_equal. f_equal. f_equal.
    rewrite <- app_assoc. reflexivity.
Qed.

Lemma after_record_head rest : hd_error (after_record rest) <> Some dq.
Proof. destruct rest; simpl; discriminate. Qed.

Lemma spec_serialize_inj (r1 r2 : list Card) :
  spec_serialize r1 = spec_serialize r2 -> r1 = r2.
Proof.
  revert r2. induction r1 as [|c1 r1 IH]; intros [|c2 r2] H.
  - reflexivity.
  - rewrite spec_serialize_shape in H. discriminate.
  - rewrite spec_serialize_shape in H. discriminate.
  - rewrite !spec_serialize_shape in H.
    injection H as H.
    apply (f_equal read_field) in H.
    rewrite !read_field_escape in H by (simpl; discriminate).
    injection H as Hq H.
    apply (f_equal read_field) in H.
    rewrite !read_field_escape in H by apply after_record_head.
    injection H as Ha H.
    assert (r1 = r2) as ->.
    { destruct r1 as [|d1 r1], r2 as [|d2 r2]; unfold after_record in H;
        try discriminate; [reflexivity|].
      injection H as H. now apply IH. }
    destruct c1, c2; simpl in *. now subst.
Qed.

End Decoding.

(* ================================================================== *)
(** ** Claims about the serializer *)

(** C4. The CSV text is the records' lines, one per record in order,
    separated by single newlines, with nothing before the first line and
    nothing after the last (a non-empty text ends with the closing quote of
    the last answer). A line is the escaped question and the escaped answer,
    each in quotes, with a comma between. Escaping writes every quote twice
    and every other code unit once, in order: undoing the doubling gives the
    field back, the code units other than quotes are untouched, and the
    number of quotes doubles. The record of the example gives the expected
    line. *)
Theorem serialize_format :
  (forall r : list Card, csv r = spec_serialize r)
  /\ (forall (c : Card) (rest : list Card) (d : JsString.code_unit),
        last (csv (c :: rest)) d = dq)
  /\ (forall s : jsstring,
        escape s = spec_escape s
        /\ unescape (escape s) = s
        /\ filter not_quote (escape s) = filter not_quote s
        /\ count_occ N.eq_dec (escape s) dq = 2 * count_occ N.eq_dec s dq)
  /\ csv [Demo.say_hi] = Demo.say_hi_line.
Proof.
  split; [exact csv_is_spec_serialize|].
  split.
  { intros c rest d. rewrite csv_is_spec_serialize. apply spec_serialize_last. }
  split; [|reflexivity].
  intros s. rewrite escape_is_spec_escape.
  repeat split.
  - apply unescape_escape.
  - apply escape_keeps_others.
  - apply escape_doubles_quotes.
Qed.

(** C6. The serializer is a function defined on every result: the empty
    result gives the empty text, and only the empty result does; a record
    of two empty strings gives two empty quoted fields; and whatever the
    cards are, the last step of the handler answers 200 with their CSV
    text as the body, without throwing. *)
Theorem serialize_total :
  csv [] = []
  /\ (forall r : list Card, csv r = [] <-> r = [])
  /\ csv [mkCard [] []] = [dq; dq; JsString.comma; dq; dq]
  /\ (forall (P : Platform) (allCards : list Card) (s : state),
        ret (csv_response allCards) s = (Ok (csv_response allCards), s)
        /\ status (csv_response allCards) = 200
        /\ body (csv_response allCards) = csv allCards).
Proof.
  split; [reflexivity|].
  split.
  { intros r. split.
    - destruct r as [|c rest]; [reflexivity|].
      rewrite csv_is_spec_serialize, spec_serialize_shape. discriminate.
    - intros ->. reflexivity. }
  split; [reflexivity|].
  intros P allCards s. repeat split.
Qed.

(** C10. Two different results never have the same CSV text. *)
Theorem serialize_injective (r1 r2 : list Card) :
  r1 <> r2 -> csv r1 <> csv r2.
Proof.
  intros Hne Heq. apply Hne.
  rewrite !csv_is_spec_serialize in Heq.
  exact (spec_serialize_inj _ _ Heq).
Qed.

(** C10 at two results whose texts differ only by the doubling of quotes. *)
Lemma serialize_injective_witness :
  Demo.two_records <> Demo.one_record
  /\ csv Demo.two_records <> csv Demo.one_record.
Proof.
  assert (H : Demo.two_records <> Demo.one_record) by discriminate.
  split; [exact H|].
  exact (serialize_injective H).
Defined.

(* ================================================================== *)
(** ** Slices and chains of ranges *)

Section Slices.

Context {A : Type}.

Lemma firstn_plus (n m : nat) (l : list A) :
  firstn (n + m) l = firstn n l ++ firstn m (skipn n l).
Proof.
  revert l. induction n as [|n IH]; intros l; [reflexivity|].
  destruct l as [|x l]; simpl.
  - now rewrite firstn_nil.
  - now rewrite IH.
Qed.

Lemma slice_step (l : list A) (a n : nat) (p : A) :
  nth_error l a = Some p ->
  firstn (S n) (skipn a l) = p :: firstn n (skipn (S a) l).
Proof.
  revert a. induction l as [|x l IH]; intros a H.
  - destruct a; discriminate.
  - destruct a as [|a]; simpl in *.
    + now injection H as ->.
    + now apply IH.
Qed.

Lemma slice_length (l : list A) (a n : nat) :
  a + n <= List.length l -> List.length (firstn n (skipn a l)) = n.
Proof.
  intros H. rewrite length_firstn, length_skipn. lia.
Qed.

(** The slices of a chain of ranges, put end to end, are the slice from
    the chain's start to its end. *)
Lemma chain_slices (l : list A) a ranges b :
  chain a ranges b ->
  a <= b
  /\ List.concat
       (map (fun r => firstn (snd r - fst r) (skipn (fst r) l)) ranges)
     = firstn (b - a) (skipn a l).
Proof.
  induction 1 as [a | a b rest c Hab Hch [Hbc IH]].
  - split; [lia|]. now rewrite Nat.sub_diag.
  - split; [lia|]. simpl. rewrite IH.
    replace (c - a) with ((b - a) + (c - b)) by lia.
    rewrite firstn_plus, skipn_skipn.
    now replace (b - a + a) with b by lia.
Qed.

End Slices.

Lemma chain_sum a ranges b :
  chain a ranges b -> a + list_sum (map range_len ranges) = b.
Proof.
  induction 1 as [a | a b rest c Hab Hch IH]; simpl.
  - lia.
  - unfold range_len at 1. simpl. lia.
Qed.

Lemma chain_bounds a ranges b :
  chain a ranges b -> Forall (fun r => a <= fst r /\ fst r < snd r /\ snd r <= b) ranges.
Proof.
  induction 1 as [a | a b rest c Hab Hch IH]; constructor.
  - simpl. pose proof (chain_sum Hch). lia.
  - eapply Forall_impl; [|exact IH]. simpl. intros r. lia.
Qed.

(** The last chunk of a document cut at multiples of the chunk size. *)
Lemma final_len_spec (total size k : nat) :
  k * size < total -> total <= k * size + size ->
  total - k * size = final_len total size.
Proof.
  intros Hlo Hhi. unfold final_len.
  assert (Hsize : size <> 0) by lia.
  destruct (Nat.eq_dec total (k * size + size)) as [E|E].
  - replace total with ((S k) * size) by (simpl; lia).
    rewrite Nat.Div0.mod_mul. simpl. lia.
  - assert (Hmod : total mod size = total - k * size).
    { symmetry. apply (Nat.mod_unique total size k); lia. }
    rewrite Hmod. destruct (Nat.eqb_spec (total - k * size) 0); lia.
Qed.

(* ================================================================== *)
(** ** The splitter *)

Section Splitter.

Context {P : Platform}.

Lemma bind_ok {A B} (m : M A) (k : A -> M B) s a s' :
  m s = (Ok a, s') -> bind m k s = k a s'.
Proof. intros H. unfold bind. now rewrite H. Qed.

Lemma bind_threw {A B} (m : M A) (k : A -> M B) s e s' :
  m s = (Threw e, s') -> bind m k s = (Threw e, s').
Proof. intros H. unfold bind. now rewrite H. Qed.

Lemma Array_from_shift (n a : nat) :
  Array_from n (fun i => i + a) = seq a n.
Proof.
  unfold Array_from. revert a. induction n as [|n IH]; intros a; [reflexivity|].
  simpl. f_equal. rewrite <- seq_shift, map_map.
  rewrite <- (IH (S a)). apply map_ext. intros i. lia.
Qed.

Lemma copyPages_seq (doc : PDFDocument) (n a : nat) (s : state) :
  a + n <= getPageCount doc ->
  copyPages doc (seq a n) s = (Ok (firstn n (skipn a (getPages doc))), s).
Proof.
  unfold getPageCount. revert a. induction n as [|n IH]; intros a H.
  - reflexivity.
  - simpl seq. simpl copyPages.
    destruct (nth_error (getPages doc) a) as [p|] eqn:E.
    + erewrite bind_ok by (apply IH; lia).
      erewrite slice_step by exact E. reflexivity.
    + apply nth_error_None in E. lia.
Qed.

Lemma addPage_all (pages : list Page) (doc : PDFDocument) :
  fold_left addPage pages doc = mkDoc (getPages doc ++ pages).
Proof.
  revert doc. induction pages as [|p pages IH]; intros doc; simpl.
  - rewrite app_nil_r. now destruct doc.
  - rewrite IH. simpl. now rewrite <- app_assoc.
Qed.

(** One turn of the loop, for a range that lies inside the document. *)
Lemma splitPdf_loop_step fuel doc size start chunks s :
  start < getPageCount doc ->
  splitPdf_loop (S fuel) (getPageCount doc) doc size start chunks s
  = splitPdf_loop fuel (getPageCount doc) doc size (start + size)
      (chunks ++ [save (extract doc (start, Nat.min (start + size) (getPageCount doc)))]) s.
Proof.
  intros Hlt. simpl splitPdf_loop.
  destruct (Nat.ltb_spec start (getPageCount doc)) as [_|]; [|lia].
  rewrite Array_from_shift.
  erewrite bind_ok by (apply copyPages_seq; lia).
  rewrite addPage_all. reflexivity.
Qed.

Lemma splitPdf_loop_exit fuel doc size start chunks s :
  getPageCount doc <= start ->
  splitPdf_loop (S fuel) (getPageCount doc) doc size start chunks s = (Ok chunks, s).
Proof.
  intros Hge. simpl.
  destruct (Nat.ltb_spec start (getPageCount doc)); [lia|reflexivity].
Qed.

(** The loop, entered at a multiple of the chunk size inside the document
    with enough fuel, appends the chunks of a chain of ranges that ends at
    the last page. *)
Lemma splitPdf_loop_ranges doc size :
  0 < size ->
  forall fuel k chunks s,
    k * size < getPageCount doc ->
    getPageCount doc < k * size + fuel ->
    exists ranges,
      splitPdf_loop fuel (getPageCount doc) doc size (k * size) chunks s
      = (Ok (chunks ++ map (fun r => save (extract doc r)) ranges), s)
      /\ ranges <> []
      /\ chain (k * size) ranges (getPageCount doc)
      /\ chunk_lengths (getPageCount doc) size ranges.
Proof.
  intros Hsize. set (total := getPageCount doc).
  induction fuel as [|fuel IH]; intros k chunks s Hlo Hfuel; [lia|].
  unfold total. rewrite splitPdf_loop_step by exact Hlo. fold total.
  destruct (Nat.lt_ge_cases (k * size + size) total) as [Hmore|Hlast].
  - destruct (IH (S k) (chunks ++ [save (extract doc (k * size, Nat.min (k * size + size) total))]) s)
      as (ranges & Hrun & Hne & Hch & Hlen); [simpl; lia|simpl; lia|].
    replace (S k * size) with (k * size + size) in * by (simpl; lia).
    exists ((k * size, k * size + size) :: ranges).
    rewrite Hrun, Nat.min_l by lia.
    split; [now rewrite <- app_assoc|].
    split; [discriminate|].
    split; [constructor; [lia|exact Hch]|].
    destruct ranges as [|r ranges]; [contradiction|].
    split; [|exact Hlen]. unfold range_len. simpl. lia.
  - exists [(k * size, total)].
    rewrite Nat.min_r by lia.
    destruct fuel as [|fuel]; [lia|].
    unfold total. rewrite splitPdf_loop_exit by (fold total; lia). fold total.
    split; [reflexivity|].
    split; [discriminate|].
    split; [constructor; [lia|constructor]|].
    simpl. unfold range_len. simpl. now apply final_len_spec.
Qed.

End Splitter.

(* ================================================================== *)
(** ** The generation loop *)

Section Loop.

Context {P : Platform}.

Lemma aggregate_from_runs (generate : Buffer -> M (list Card)) chunks s batches s' :
  runs generate chunks s batches s' ->
  forall acc,
    aggregate_from generate chunks acc s = (Ok (acc ++ List.concat batches), s').
Proof.
  induction 1 as [s | buf rest s cards s1 batches s2 Hgen Hruns IH]; intros acc.
  - simpl. now rewrite app_nil_r.
  - simpl aggregate_from. erewrite bind_ok by exact Hgen.
    rewrite IH. simpl. now rewrite app_assoc.
Qed.

Lemma aggregate_from_fails (generate : Buffer -> M (list Card))
      pre s batches s1 :
  runs generate pre s batches s1 ->
  forall bad post e s2 acc,
    generate bad s1 = (Threw e, s2) ->
    aggregate_from generate (pre ++ bad :: post) acc s = (Threw e, s2).
Proof.
  induction 1 as [s | buf rest s cards s1 batches s2 Hgen Hruns IH];
    intros bad post e s3 acc Hbad.
  - simpl. now apply bind_threw.
  - simpl. erewrite bind_ok by exact Hgen. now apply IH.
Qed.

(** Whatever the service answers, a call of [generateFlashCardsFromPDF]
    hands exactly its document to the service, once. *)
Lemma generate_calls (buf : Buffer) (s s' : state) (o : outcome (list Card)) :
  generateFlashCardsFromPDF buf s = (o, s') ->
  calls s' = calls s ++ [buf].
Proof.
  unfold generateFlashCardsFromPDF, bind, call_generateContent. simpl.
  destruct (generateContent buf (world s)) as [[e|[text|]] w].
  - intros H. injection H as _ <-. reflexivity.
  - destruct text as [|x text].
    + intros H. injection H as _ <-. reflexivity.
    + unfold lift, zod_parse.
      destruct (JSON_parse (x :: text)) as [e|json]; simpl.
      * intros H. injection H as _ <-. reflexivity.
      * destruct (FlashCardsArray json); simpl;
          intros H; injection H as _ <-; reflexivity.
  - intros H. injection H as _ <-. reflexivity.
Qed.

Lemma runs_calls chunks s batches s' :
  runs generateFlashCardsFromPDF chunks s batches s' ->
  calls s' = calls s ++ chunks.
Proof.
  induction 1 as [s | buf rest s cards s1 batches s2 Hgen Hruns IH].
  - now rewrite app_nil_r.
  - rewrite IH, (generate_calls _ _ Hgen), <- app_assoc. reflexivity.
Qed.

(** The handler on a request that carries a parseable file. *)
Lemma POST_with_file fuel req fd file pages s :
  formData req = inr fd ->
  FormData_get fd (JsString.lit "file") = Some (EntryFile file) ->
  PDFDocument_load (file_bytes file) = inr pages ->
  POST fuel req s
  = bind (pdfBuffers fuel (file_bytes file) (mkDoc pages))
      (fun bufs =>
         bind (aggregate generateFlashCardsFromPDF bufs)
           (fun allCards => ret (csv_response allCards))) s.
Proof.
  intros Hfd Hget Hload. unfold POST. rewrite Hfd.
  unfold bind at 1. simpl. rewrite Hget.
  unfold bind at 1, load. rewrite Hload. reflexivity.
Qed.

End Loop.

(* ================================================================== *)
(** ** Claims about the splitter *)

(** C1. A document of more than 500 pages is cut, given enough fuel for
    the loop, into the chunks of a chain of page ranges from page 0 to the
    last page: the ranges follow one another without gap or overlap, in
    page order. Every range but the last has 100 pages and the last has
    [pageCount mod 100] pages, or 100 when that is 0. Each chunk holds the
    pages of its range; the chunks' page counts add up to the document's,
    and their pages, put end to end, are the document's pages. *)
Theorem split_partitions {P : Platform} (fuel : nat) (pdfBuffer : Buffer)
        (masterDoc : PDFDocument) (s : state) :
  500 < getPageCount masterDoc ->
  getPageCount masterDoc < fuel ->
  exists ranges : list (nat * nat),
    pdfBuffers fuel pdfBuffer masterDoc s
    = (Ok (map (fun r => save (extract masterDoc r)) ranges), s)
    /\ chain 0 ranges (getPageCount masterDoc)
    /\ chunk_lengths (getPageCount masterDoc) 100 ranges
    /\ Forall (fun r => getPageCount (extract masterDoc r) = range_len r) ranges
    /\ list_sum (map (fun r => getPageCount (extract masterDoc r)) ranges)
       = getPageCount masterDoc
    /\ List.concat (map (fun r => getPages (extract masterDoc r)) ranges)
       = getPages masterDoc.
Proof.
  intros Hbig Hfuel.
  destruct (@splitPdf_loop_ranges P masterDoc 100 ltac:(lia) fuel 0 [] s)
    as (ranges & Hrun & _ & Hch & Hlen); [simpl; lia|simpl; lia|].
  exists ranges.
  assert (Hcount : Forall (fun r => getPageCount (extract masterDoc r) = range_len r) ranges).
  { eapply Forall_impl; [|exact (chain_bounds Hch)].
    intros [a b] (Ha & Hab & Hb). simpl in *.
    unfold getPageCount, extract, range_len. simpl.
    apply slice_length. unfold getPageCount in Hb. lia. }
  split.
  { unfold pdfBuffers, splitPdf, default_chunkSize.
    destruct (Nat.ltb_spec 500 (getPageCount masterDoc)); [exact Hrun|lia]. }
  split; [exact Hch|].
  split; [exact Hlen|].
  split; [exact Hcount|].
  split.
  - transitivity (list_sum (map range_len ranges)); [|exact (chain_sum Hch)].
    f_equal. clear -Hcount. induction Hcount as [|r rs Hr _ IH]; [reflexivity|].
    simpl. now rewrite Hr, IH.
  - destruct (chain_slices (getPages masterDoc) Hch) as [_ Hcat].
    unfold extract. simpl. rewrite Hcat.
    rewrite Nat.sub_0_r, skipn_0. apply firstn_all.
Qed.

(** C1 on a document of 650 blank pages. *)
Lemma split_partitions_witness :
  exists ranges : list (nat * nat),
    pdfBuffers 651 (Demo.pdf_bytes 650) (Demo.document 650) (Demo.start [])
    = (Ok (map (fun r => save (extract (Demo.document 650) r)) ranges),
       Demo.start [])
    /\ chain 0 ranges 650
    /\ chunk_lengths 650 100 ranges.
Proof.
  assert (Hbig : 500 < getPageCount (Demo.document 650))
    by (apply Nat.ltb_lt; reflexivity).
  assert (Hfuel : getPageCount (Demo.document 650) < 651)
    by (apply Nat.ltb_lt; reflexivity).
  destruct (@split_partitions Demo.platform 651 (Demo.pdf_bytes 650)
              (Demo.document 650) (Demo.start []) Hbig Hfuel)
    as (ranges & Hrun & Hch & Hlen & _).
  exists ranges. split; [exact Hrun|]. split; [exact Hch|exact Hlen].
Defined.

(** C2. For a document of at most 500 pages the list of chunks is the
    uploaded buffer itself, alone: it is neither split nor written anew.
    The handler, on a request whose file parses to such a document, hands
    the service the uploaded bytes and nothing else. *)
Theorem small_document_single_chunk {P : Platform} (fuel : nat)
        (pdfBuffer : Buffer) (masterDoc : PDFDocument) (s : state) :
  getPageCount masterDoc <= 500 ->
  pdfBuffers fuel pdfBuffer masterDoc s = (Ok [pdfBuffer], s)
  /\ (forall (req : NextRequest) (fd : FormData) (file : File),
        formData req = inr fd ->
        FormData_get fd (JsString.lit "file") = Some (EntryFile file) ->
        PDFDocument_load (file_bytes file) = inr (getPages masterDoc) ->
        calls (snd (POST fuel req s)) = calls s ++ [file_bytes file]).
Proof.
  intros Hsmall.
  assert (Hsplit : forall buf, pdfBuffers fuel buf masterDoc s = (Ok [buf], s)).
  { intros buf. unfold pdfBuffers.
    destruct (Nat.ltb_spec 500 (getPageCount masterDoc)); [lia|reflexivity]. }
  split; [apply Hsplit|].
  intros req fd file Hfd Hget Hload.
  erewrite POST_with_file by eassumption.
  replace (mkDoc (getPages masterDoc)) with masterDoc by now destruct masterDoc.
  erewrite bind_ok by apply Hsplit.
  unfold aggregate. simpl aggregate_from.
  unfold bind at 1 2.
  destruct (generateFlashCardsFromPDF (file_bytes file) s) as [o s1] eqn:Hgen.
  apply generate_calls in Hgen.
  destruct o as [cards|e|]; exact Hgen.
Qed.

(** C2 on a document of 500 blank pages. *)
Lemma small_document_single_chunk_witness :
  pdfBuffers 0 (Demo.pdf_bytes 500) (Demo.document 500) (Demo.start [])
  = (Ok [Demo.pdf_bytes 500], Demo.start []).
Proof.
  refine (proj1 (@small_document_single_chunk Demo.platform 0
                   (Demo.pdf_bytes 500) (Demo.document 500) (Demo.start []) _)).
  apply Nat.leb_le. reflexivity.
Defined.

(* ================================================================== *)
(** ** Claims about the generation loop *)

(** C3. When [generate], applied to the chunks one after the other in
    their order, each call starting in the state the call before left,
    returns the batches [batches], the loop returns the batches' records
    put end to end in that order and ends in the state of the last call.
    For the handler's generator the documents handed to the service are
    then the chunks, each once, in their order. *)
Theorem aggregate_in_order {P : Platform} (generate : Buffer -> M (list Card))
        (chunks : list Buffer) (s : state) (batches : list (list Card))
        (s' : state) :
  runs generate chunks s batches s' ->
  aggregate generate chunks s = (Ok (List.concat batches), s')
  /\ (generate = generateFlashCardsFromPDF -> calls s' = calls s ++ chunks).
Proof.
  intros Hruns. split.
  - unfold aggregate. erewrite aggregate_from_runs by exact Hruns. reflexivity.
  - intros ->. eapply runs_calls. exact Hruns.
Qed.

(** C3 on two chunks whose batches are one card each. *)
Lemma aggregate_in_order_witness :
  aggregate generateFlashCardsFromPDF [Demo.chunk1; Demo.chunk2]
    (Demo.start Demo.two_answers)
  = (Ok [Demo.card1; Demo.card2],
     mkState (P := Demo.platform) [] [Demo.chunk1; Demo.chunk2]).
Proof.
  refine (proj1 (@aggregate_in_order Demo.platform generateFlashCardsFromPDF
                   [Demo.chunk1; Demo.chunk2] (Demo.start Demo.two_answers)
                   [[Demo.card1]; [Demo.card2]] _ _)).
  eapply runs_cons; [reflexivity|].
  eapply runs_cons; [reflexivity|].
  apply runs_nil.
Defined.

(** C5. When the generator throws on a chunk after succeeding on the
    chunks before it, the handler throws that exception and builds no
    response, so that no CSV text leaves it; the request ends in the state
    of the failed call, and the documents handed to the service are the
    chunks up to the failed one, each once: the failed chunk is not tried
    again and no later chunk is processed. *)
Theorem generation_failure_aborts {P : Platform} (fuel : nat) (req : NextRequest)
        (fd : FormData) (file : File) (pages : list Page)
        (pre : list Buffer) (bad : Buffer) (post : list Buffer)
        (batches : list (list Card)) (e : exn) (s s0 s1 s2 : state) :
  formData req = inr fd ->
  FormData_get fd (JsString.lit "file") = Some (EntryFile file) ->
  PDFDocument_load (file_bytes file) = inr pages ->
  pdfBuffers fuel (file_bytes file) (mkDoc pages) s = (Ok (pre ++ bad :: post), s0) ->
  runs generateFlashCardsFromPDF pre s0 batches s1 ->
  generateFlashCardsFromPDF bad s1 = (Threw e, s2) ->
  POST fuel req s = (Threw e, s2)
  /\ calls s2 = calls s0 ++ pre ++ [bad].
Proof.
  intros Hfd Hget Hload Hsplit Hruns Hbad. split.
  - erewrite POST_with_file by eassumption.
    erewrite bind_ok by exact Hsplit.
    apply bind_threw. unfold aggregate.
    eapply aggregate_from_fails; [exact Hruns|exact Hbad].
  - erewrite generate_calls by exact Hbad.
    erewrite runs_calls by exact Hruns.
    now rewrite app_assoc.
Qed.

(** C5 on a document of 650 pages whose fourth chunk the service fails
    on: the three answers after the failure are never asked for. *)
Lemma generation_failure_aborts_witness :
  POST 8 (Demo.upload (Demo.pdf_bytes 650)) (Demo.start Demo.fourth_fails)
  = (Threw (Foreign "503 Service Unavailable"),
     mkState (P := Demo.platform)
       [inr (Some Demo.text2); inr (Some Demo.text2); inr (Some Demo.text2)]
       (repeat (Demo.pdf_bytes 100) 4)).
Proof.
  refine (proj1 (@generation_failure_aborts Demo.platform 8
                   (Demo.upload (Demo.pdf_bytes 650)) _ _ _
                   (repeat (Demo.pdf_bytes 100) 3) (Demo.pdf_bytes 100)
                   [Demo.pdf_bytes 100; Demo.pdf_bytes 100; Demo.pdf_bytes 50]
                   (repeat [Demo.card1] 3) _
                   (Demo.start Demo.fourth_fails) (Demo.start Demo.fourth_fails)
                   _ _ eq_refl eq_refl eq_refl _ _ _)).
  - vm_compute. reflexivity.
  - eapply runs_cons; [reflexivity|].
    eapply runs_cons; [reflexivity|].
    eapply runs_cons; [reflexivity|].
    apply runs_nil.
  - reflexivity.
Defined.

(** C9. For a document without pages the list of chunks is the uploaded
    buffer, alone, whatever the fuel; the loop over it returns what the
    generator returns for that buffer, and the loop over no chunk at all
    returns no card; [splitPdf] itself, on such a document, returns no
    chunk. *)
Theorem empty_document_handled {P : Platform} (fuel : nat) (pdfBuffer : Buffer)
        (masterDoc : PDFDocument) (s : state) :
  getPageCount masterDoc = 0 ->
  pdfBuffers fuel pdfBuffer masterDoc s = (Ok [pdfBuffer], s)
  /\ (forall (generate : Buffer -> M (list Card)) cards s',
        generate pdfBuffer s = (Ok cards, s') ->
        aggregate generate [pdfBuffer] s = (Ok cards, s'))
  /\ (forall generate : Buffer -> M (list Card),
        aggregate generate [] s = (Ok [], s))
  /\ (forall chunkSize : nat,
        splitPdf (S fuel) (getPageCount masterDoc) masterDoc chunkSize s
        = (Ok [], s)).
Proof.
  intros Hzero. split; [|split; [|split]].
  - unfold pdfBuffers. rewrite Hzero. reflexivity.
  - intros generate cards s' Hgen. unfold aggregate. simpl.
    erewrite bind_ok by exact Hgen. reflexivity.
  - reflexivity.
  - intros chunkSize. unfold splitPdf. apply splitPdf_loop_exit. lia.
Qed.

(** C9 on a document that is a header and nothing else. *)
Lemma empty_document_handled_witness :
  pdfBuffers 0 (Demo.pdf_bytes 0) (Demo.document 0) (Demo.start [])
  = (Ok [Demo.pdf_bytes 0], Demo.start []).
Proof.
  exact (proj1 (@empty_document_handled Demo.platform 0 (Demo.pdf_bytes 0)
                  (Demo.document 0) (Demo.start []) eq_refl)).
Defined.

(* ================================================================== *)
(** ** Claims about rejected input *)

(** C7, as the code has it. A request whose form data has no file under
    [file] is answered 400 with the JSON text of an object whose [error]
    property is the message, and nothing else happens. A request whose
    file the loader cannot parse makes the handler throw the loader's
    exception in the state it started in: no document has been handed to
    the service, and the handler has built no response. *)
Theorem POST_rejects_bad_input {P : Platform} (fuel : nat) (req : NextRequest)
        (fd : FormData) (s : state) :
  formData req = inr fd ->
  ((forall file, FormData_get fd (JsString.lit "file") <> Some (EntryFile file)) ->
   POST fuel req s = (Ok missing_file_response, s)
   /\ status missing_file_response = 400
   /\ headers missing_file_response
      = [(JsString.lit "Content-Type", JsString.lit "application/json")]
   /\ body missing_file_response
      = JSON_stringify (VObject [(JsString.lit "error", VString missing_file_message)]))
  /\ (forall file e,
        FormData_get fd (JsString.lit "file") = Some (EntryFile file) ->
        PDFDocument_load (file_bytes file) = inl e ->
        POST fuel req s = (Threw e, s)).
Proof.
  intros Hfd. split.
  - intros Hnofile. split; [|repeat split].
    unfold POST. rewrite Hfd. unfold bind at 1. simpl.
    destruct (FormData_get fd (JsString.lit "file")) as [[file|str]|] eqn:E;
      try reflexivity.
    now elim (Hnofile file).
  - intros file e Hget Hload.
    unfold POST. rewrite Hfd. unfold bind at 1. simpl. rewrite Hget.
    unfold bind at 1, load. rewrite Hload. reflexivity.
Qed.

(** C7 on a request without any form field. *)
Lemma POST_rejects_bad_input_witness :
  POST 0 Demo.no_upload (Demo.start [])
  = (Ok (missing_file_response (P := Demo.platform)), Demo.start []).
Proof.
  refine (proj1 (proj1 (@POST_rejects_bad_input Demo.platform 0 Demo.no_upload
                          [] (Demo.start []) eq_refl) _)).
  intros file. discriminate.
Defined.

(** C7 as stated fails: an uploaded file that the loader cannot parse is
    not answered 400; the handler throws. *)
Lemma unparseable_upload_throws :
  PDFDocument_load (Platform := Demo.platform) [] = inl (Foreign "PDFDocument.load")
  /\ POST 1 (Demo.upload []) (Demo.start [])
     = (Threw (Foreign "PDFDocument.load"), Demo.start [])
  /\ POST 1 (Demo.upload []) (Demo.start [])
     <> (Ok (missing_file_response (P := Demo.platform)), Demo.start []).
Proof.
  split; [reflexivity|]. split; [reflexivity|]. discriminate.
Qed.

Section Validators.

Lemma z_string_spec (v : value) (s : jsstring) :
  z.string v = Some s <-> v = VString s.
Proof.
  split.
  - destruct v; simpl; try discriminate. now intros [= ->].
  - now intros ->.
Qed.

Lemma FlashCardSchema_spec (v : value) (c : Card) :
  FlashCardSchema v = Some c <-> has_card v c.
Proof.
  unfold FlashCardSchema, z.object, has_card. split.
  - destruct v as [ | | | | |items|props]; try discriminate.
    destruct (z.string (get_prop props (JsString.lit "question"))) as [q|] eqn:Eq;
      [|discriminate].
    destruct (z.string (get_prop props (JsString.lit "answer"))) as [a|] eqn:Ea;
      [|discriminate].
    intros [= <-]. exists props.
    apply z_string_spec in Eq, Ea. simpl. now rewrite Eq, Ea.
  - intros (props & -> & Hq & Ha). rewrite Hq, Ha. simpl. now destruct c.
Qed.

Lemma all_some_Forall2 {A B} (f : A -> option B) (R : A -> B -> Prop) :
  (forall a b, f a = Some b <-> R a b) ->
  forall l l', z.all_some f l = Some l' <-> Forall2 R l l'.
Proof.
  intros Hf. induction l as [|a l IH]; intros l'; simpl.
  - split.
    + intros [= <-]. constructor.
    + intros H. inversion H. reflexivity.
  - split.
    + destruct (f a) as [b|] eqn:Ea; [|discriminate].
      destruct (z.all_some f l) as [bs|] eqn:El; [|discriminate].
      intros [= <-]. constructor; [now apply Hf|now apply IH].
    + intros H. inversion H as [|a' b l0 bs Hab Hrest]; subst.
      apply Hf in Hab. apply IH in Hrest. now rewrite Hab, Hrest.
Qed.

Lemma FlashCardsArray_spec (v : value) (cards : list Card) :
  FlashCardsArray v = Some (mkFlashCards cards) <-> has_cards v cards.
Proof.
  unfold FlashCardsArray, z.object, z.array, has_cards. split.
  - destruct v as [ | | | | |items|props]; try discriminate.
    destruct (get_prop props (JsString.lit "flashcard"))
      as [ | | | | |items| ] eqn:E; try discriminate.
    destruct (z.all_some FlashCardSchema items) as [cs|] eqn:Ecs; [|discriminate].
    intros [= <-]. exists props, items. repeat split; [exact E|].
    now apply (@all_some_Forall2 _ _ _ _ FlashCardSchema_spec).
  - intros (props & items & -> & Hget & Hall). rewrite Hget.
    apply (@all_some_Forall2 _ _ _ _ FlashCardSchema_spec) in Hall.
    now rewrite Hall.
Qed.

End Validators.

(** C8, as the code has it. The validator accepts a value exactly when it
    is an object whose [flashcard] property is an array of objects whose
    [question] and [answer] properties are strings, and returns those
    strings and nothing else of the input; properties the schema does not
    name do not make it reject, and are dropped. Every other value (a
    missing property, a property that is not a string, an element that is
    not an object) is rejected, and [parse] throws a [ZodError]. *)
Theorem adapter_validation :
  (forall (v : value) (cards : list Card),
      FlashCardsArray v = Some (mkFlashCards cards) <-> has_cards v cards)
  /\ (forall v : value,
        FlashCardsArray v = None <-> (forall cards, ~ has_cards v cards))
  /\ (forall (P : Platform) (v : value) (s : state),
        (forall cards, ~ has_cards v cards) ->
        zod_parse FlashCardsArray v s = (Threw ZodError, s)).
Proof.
  assert (Hnone : forall v : value,
             FlashCardsArray v = None <-> (forall cards, ~ has_cards v cards)).
  { intros v. split.
    - intros Hv cards Hc. apply FlashCardsArray_spec in Hc. congruence.
    - intros Hno. destruct (FlashCardsArray v) as [[cards]|] eqn:E; [|reflexivity].
      apply FlashCardsArray_spec in E. now elim (Hno cards). }
  split; [exact FlashCardsArray_spec|]. split; [exact Hnone|].
  intros P v s Hno. apply Hnone in Hno. unfold zod_parse. now rewrite Hno.
Qed.

(** C8 as stated fails: a card with a third property does not have the
    strict shape, and is accepted all the same, its third property
    dropped. *)
Lemma extra_field_is_accepted :
  ~ strict_shape Demo.extra_value
  /\ FlashCardsArray Demo.extra_value = Some (mkFlashCards [Demo.card1])
  /\ JSON_parse (Platform := Demo.platform) Demo.extra_text = inr Demo.extra_value
  /\ generateFlashCardsFromPDF Demo.chunk1 (Demo.start [inr (Some Demo.extra_text)])
     = (Ok [Demo.card1], mkState (P := Demo.platform) [] [Demo.chunk1]).
Proof.
  split; [|repeat split].
  intros (key & items & Heq & Hall).
  injection Heq as _ <-.
  inversion Hall as [|item rest Hrec _]; subst.
  destruct Hrec as (q & a & [H|H]); discriminate H.
Qed.

(* ================================================================== *)
(** ** Further properties: the generator *)

Section GeneratorFacts.

Context {P : Platform}.

(** X9. The generator returns cards exactly when the service answers with a
    non-empty text that [JSON.parse] accepts and whose value has the cards;
    the state is then the service's, with the document added to the calls. *)
Theorem generate_success_iff (buf : Buffer) (s s' : state) (cards : list Card) :
  generateFlashCardsFromPDF buf s = (Ok cards, s')
  <-> exists text json w,
        generateContent buf (world s) = (inr (Some text), w)
        /\ text <> []
        /\ JSON_parse text = inr json
        /\ has_cards json cards
        /\ s' = mkState w (calls s ++ [buf]).
Proof.
  unfold generateFlashCardsFromPDF, bind, call_generateContent. simpl.
  split.
  - destruct (generateContent buf (world s)) as [[e|[text|]] w]; try discriminate.
    destruct text as [|x text]; [discriminate|].
    unfold lift, zod_parse.
    destruct (JSON_parse (x :: text)) as [e|json] eqn:Ejson; [discriminate|].
    simpl. destruct (FlashCardsArray json) as [[cs]|] eqn:Ecs; [|discriminate].
    simpl. intros [= <- <-].
    exists (x :: text), json, w. repeat split; try assumption; [discriminate|].
    now apply FlashCardsArray_spec.
  - intros (text & json & w & -> & Hne & Hjson & Hcards & ->).
    destruct text as [|x text]; [contradiction|].
    unfold lift, zod_parse. rewrite Hjson. simpl.
    apply FlashCardsArray_spec in Hcards. rewrite Hcards. reflexivity.
Qed.

(** X10. What the generator throws is the service's exception, the error for an
    absent or empty text, the exception of [JSON.parse], or a [ZodError]
    for a value that has no cards; in each case the document has been
    handed to the service. *)
Theorem generate_failure_kinds (buf : Buffer) (s s' : state) (e : exn) :
  generateFlashCardsFromPDF buf s = (Threw e, s') ->
  exists w,
    s' = mkState w (calls s ++ [buf])
    /\ (generateContent buf (world s) = (inl e, w)
        \/ (e = empty_response
            /\ (generateContent buf (world s) = (inr None, w)
                \/ generateContent buf (world s) = (inr (Some []), w)))
        \/ (exists text,
              generateContent buf (world s) = (inr (Some text), w)
              /\ text <> []
              /\ (JSON_parse text = inl e
                  \/ (e = ZodError
                      /\ exists json,
                          JSON_parse text = inr json
                          /\ forall cards, ~ has_cards json cards)))).
Proof.
  unfold generateFlashCardsFromPDF, bind, call_generateContent. simpl.
  destruct (generateContent buf (world s)) as [[e0|[text|]] w].
  - intros [= <- <-]. exists w. split; [reflexivity|]. now left.
  - destruct text as [|x text].
    + intros [= <- <-]. exists w. split; [reflexivity|].
      right. left. split; [reflexivity|]. now right.
    + unfold lift, zod_parse.
      destruct (JSON_parse (x :: text)) as [e1|json] eqn:Ejson; simpl.
      * intros [= <- <-]. exists w. split; [reflexivity|].
        right. right. exists (x :: text).
        repeat split; [discriminate|]. left. exact Ejson.
      * destruct (FlashCardsArray json) as [r|] eqn:Ecs; simpl; [discriminate|].
        intros [= <- <-]. exists w. split; [reflexivity|].
        right. right. exists (x :: text).
        repeat split; [discriminate|]. right. split; [reflexivity|].
        exists json. split; [exact Ejson|].
        intros cards Hc. apply FlashCardsArray_spec in Hc. congruence.
  - intros [= <- <-]. exists w. split; [reflexivity|].
    right. left. split; [reflexivity|]. now left.
Qed.

Lemma generate_terminates (buf : Buffer) (s s' : state) :
  generateFlashCardsFromPDF buf s <> (OutOfFuel, s').
Proof.
  unfold generateFlashCardsFromPDF, bind, call_generateContent. simpl.
  destruct (generateContent buf (world s)) as [[e0|[text|]] w]; try discriminate.
  destruct text as [|x text]; [discriminate|].
  unfold lift, zod_parse.
  destruct (JSON_parse (x :: text)) as [e1|json]; simpl; [discriminate|].
  destruct (FlashCardsArray json); simpl; discriminate.
Qed.

End GeneratorFacts.

(** X10 at a concrete input. The generator on a service that answers with no
    text: the error for an empty response is thrown, after the one call. *)
Lemma generate_failure_kinds_witness :
  generateFlashCardsFromPDF Demo.chunk1 (Demo.start Scenario.silent)
  = (Threw empty_response, mkState (P := Demo.platform) [] [Demo.chunk1])
  /\ exists w : Demo.script,
       mkState (P := Demo.platform) [] [Demo.chunk1]
       = mkState (P := Demo.platform) w [Demo.chunk1].
Proof.
  split; [reflexivity|].
  destruct (@generate_failure_kinds Demo.platform Demo.chunk1
              (Demo.start Scenario.silent) _ empty_response eq_refl)
    as (w & Hs & _).
  exists w. exact Hs.
Defined.

(* ================================================================== *)
(** ** Further properties: the loop and the handler *)

Section HandlerFacts.

Context {P : Platform}.

Lemma aggregate_from_calls (bufs : list Buffer) :
  forall (acc : list Card) (s : state) (o : outcome (list Card)) (s' : state),
    aggregate_from generateFlashCardsFromPDF bufs acc s = (o, s') ->
    exists k,
      k <= List.length bufs
      /\ calls s' = calls s ++ firstn k bufs
      /\ (forall cards, o = Ok cards -> k = List.length bufs)
      /\ (forall e, o = Threw e -> 0 < k)
      /\ o <> OutOfFuel.
Proof.
  induction bufs as [|buf rest IH]; intros acc s o s' H.
  - injection H as <- <-. exists 0. simpl. rewrite app_nil_r.
    repeat split; try discriminate. lia.
  - simpl in H. unfold bind in H.
    destruct (generateFlashCardsFromPDF buf s) as [[cards|e|] s1] eqn:Hgen.
    + apply generate_calls in Hgen.
      destruct (IH _ _ _ _ H) as (k & Hk & Hcalls & Hok & Hthrew & Hfuel).
      exists (S k). simpl. rewrite Hcalls, Hgen, <- app_assoc.
      repeat split; try assumption; try lia.
      intros cs Hcs. now rewrite (Hok cs Hcs).
    + apply generate_calls in Hgen. injection H as <- <-.
      exists 1. simpl.
      repeat split; try discriminate; try lia. exact Hgen.
    + now elim (generate_terminates _ _ Hgen).
Qed.

(** X5. Whatever the loop's outcome, the documents handed to the service in
    its course are the first [k] chunks, in their order, each once: all of
    them when it returns, at least one when it throws. *)
Theorem aggregate_calls_prefix (bufs : list Buffer) (s s' : state)
        (o : outcome (list Card)) :
  aggregate generateFlashCardsFromPDF bufs s = (o, s') ->
  exists k,
    k <= List.length bufs
    /\ calls s' = calls s ++ firstn k bufs
    /\ (forall cards, o = Ok cards -> k = List.length bufs)
    /\ (forall e, o = Threw e -> 0 < k)
    /\ o <> OutOfFuel.
Proof. apply aggregate_from_calls. Qed.

(** X1. A request with a parseable file whose chunks the generator all
    answers is answered 200, as a CSV attachment named flashcards.csv
    whose text is the CSV of the batches' records in chunk order. *)
Theorem POST_success (fuel : nat) (req : NextRequest) (fd : FormData)
        (file : File) (pages : list Page) (bufs : list Buffer)
        (batches : list (list Card)) (s s0 s' : state) :
  formData req = inr fd ->
  FormData_get fd (JsString.lit "file") = Some (EntryFile file) ->
  PDFDocument_load (file_bytes file) = inr pages ->
  pdfBuffers fuel (file_bytes file) (mkDoc pages) s = (Ok bufs, s0) ->
  runs generateFlashCardsFromPDF bufs s0 batches s' ->
  POST fuel req s
  = (Ok (mkResponse 200
           [(JsString.lit "Content-Type", JsString.lit "text/csv; charset=utf-8");
            (JsString.lit "Content-Disposition",
             JsString.lit "attachment; filename=flashcards.csv")]
           (csv (List.concat batches))), s')
  /\ calls s' = calls s0 ++ bufs.
Proof.
  intros Hfd Hget Hload Hsplit Hruns. split.
  - erewrite POST_with_file by eassumption.
    erewrite bind_ok by exact Hsplit.
    erewrite bind_ok
      by (unfold aggregate; erewrite aggregate_from_runs by exact Hruns;
          reflexivity).
    reflexivity.
  - eapply runs_calls. exact Hruns.
Qed.

Lemma POST_ok_inv (fuel : nat) (req : NextRequest) (s s' : state)
        (resp : Response) :
  POST fuel req s = (Ok resp, s') ->
  (resp = missing_file_response
   /\ status resp = 400
   /\ s' = s
   /\ exists fd, formData req = inr fd
                 /\ forall file, FormData_get fd (JsString.lit "file")
                                 <> Some (EntryFile file))
  \/ (exists allCards, resp = csv_response allCards /\ status resp = 200).
Proof.
  unfold POST. destruct (formData req) as [e|fd] eqn:Hfd; [discriminate|].
  unfold bind at 1. simpl.
  destruct (FormData_get fd (JsString.lit "file")) as [[file|str]|] eqn:Hget.
  - unfold bind at 1, load.
    destruct (PDFDocument_load (file_bytes file)) as [e|pages]; [discriminate|].
    simpl. unfold bind at 1.
    destruct (pdfBuffers fuel (file_bytes file) (mkDoc pages) s)
      as [[bufs|e|] s0]; try discriminate.
    unfold bind at 1.
    destruct (aggregate generateFlashCardsFromPDF bufs s0)
      as [[allCards|e|] s1]; try discriminate.
    intros [= <- <-]. right. exists allCards. split; reflexivity.
  - unfold ret. intros [= <- <-]. left. repeat split.
    exists fd. split; [reflexivity|]. intros file Hfile.
    pose proof (eq_trans (eq_sym Hget) Hfile) as E. discriminate E.
  - unfold ret. intros [= <- <-]. left. repeat split.
    exists fd. split; [reflexivity|]. intros file Hfile.
    pose proof (eq_trans (eq_sym Hget) Hfile) as E. discriminate E.
Qed.

(** X2. A response built by the handler is the 400 response, and then the
    form has no file under [file] and the state is untouched, or a 200
    response with the CSV of some cards; no other status is ever sent. *)
Theorem POST_response_kinds (fuel : nat) (req : NextRequest) (s s' : state)
        (resp : Response) :
  POST fuel req s = (Ok resp, s') ->
  (resp = missing_file_response
   /\ status resp = 400
   /\ s' = s
   /\ exists fd, formData req = inr fd
                 /\ forall file, FormData_get fd (JsString.lit "file")
                                 <> Some (EntryFile file))
  \/ (exists allCards, resp = csv_response allCards /\ status resp = 200).
Proof. apply POST_ok_inv. Qed.

End HandlerFacts.

(** X5 at a concrete input. The loop on two chunks of which the service
    answers the first only. *)
Lemma aggregate_calls_prefix_witness :
  exists k,
    k <= 2
    /\ calls (snd (aggregate generateFlashCardsFromPDF [Demo.chunk1; Demo.chunk2]
                     (Demo.start [inr (Some Demo.text1)])))
       = firstn k [Demo.chunk1; Demo.chunk2].
Proof.
  destruct (@aggregate_calls_prefix Demo.platform [Demo.chunk1; Demo.chunk2]
              (Demo.start [inr (Some Demo.text1)]) _ _ eq_refl)
    as (k & Hk & Hcalls & _).
  exists k. split; [exact Hk|exact Hcalls].
Defined.

(** X1 at a concrete input. The handler on a document of 650 pages and seven
    answers of one card: seven chunks go to the service and the text has
    seven lines. *)
Lemma POST_success_witness :
  POST 8 (Demo.upload (Demo.pdf_bytes 650)) (Demo.start Scenario.seven_answers)
  = (Ok (csv_response (repeat Demo.card1 7)),
     mkState (P := Demo.platform) [] Scenario.chunks_650).
Proof.
  refine (proj1 (@POST_success Demo.platform 8
                   (Demo.upload (Demo.pdf_bytes 650)) _ _ _
                   Scenario.chunks_650 (repeat [Demo.card1] 7)
                   (Demo.start Scenario.seven_answers)
                   (Demo.start Scenario.seven_answers) _
                   eq_refl eq_refl eq_refl _ _)).
  - vm_compute. reflexivity.
  - repeat (eapply runs_cons; [reflexivity|]). apply runs_nil.
Defined.

(** X2 at a concrete input. The handler's answer to a request without file
    is of the first kind. *)
Lemma POST_response_kinds_witness :
  status (missing_file_response (P := Demo.platform)) = 400.
Proof.
  destruct (@POST_response_kinds Demo.platform 0 Demo.no_upload
              (Demo.start []) _ _ eq_refl)
    as [(_ & Hstatus & _)|(cards & Hresp & _)].
  - exact Hstatus.
  - discriminate Hresp.
Defined.

(* ================================================================== *)
(** ** Further properties: the splitter for any chunk size, and fuel *)

Section SplitterFacts.

Context {P : Platform}.

Lemma splitPdf_loop_safe (doc : PDFDocument) (chunkSize : nat) :
  forall fuel start chunks s o s',
    splitPdf_loop fuel (getPageCount doc) doc chunkSize start chunks s = (o, s') ->
    s' = s /\ forall e, o <> Threw e.
Proof.
  induction fuel as [|fuel IH]; intros start chunks s o s' H.
  - injection H as <- <-. split; [reflexivity|discriminate].
  - destruct (Nat.lt_ge_cases start (getPageCount doc)) as [Hlt|Hge].
    + rewrite splitPdf_loop_step in H by exact Hlt. exact (IH _ _ _ _ _ H).
    + rewrite splitPdf_loop_exit in H by exact Hge.
      injection H as <- <-. split; [reflexivity|discriminate].
Qed.

(** X7. [splitPdf], run on the document whose page count the handler took,
    never throws and leaves the state alone: every index it passes to
    [copyPages] is a page of the document, whatever the chunk size. *)
Theorem splitPdf_never_throws (fuel : nat) (doc : PDFDocument)
        (chunkSize : nat) (s s' : state) (o : outcome (list Buffer)) :
  splitPdf fuel (getPageCount doc) doc chunkSize s = (o, s') ->
  s' = s /\ forall e, o <> Threw e.
Proof. apply splitPdf_loop_safe. Qed.

Lemma splitPdf_loop_more_fuel (total : nat) (doc : PDFDocument) (chunkSize : nat) :
  forall fuel start chunks s o s',
    splitPdf_loop fuel total doc chunkSize start chunks s = (o, s') ->
    o <> OutOfFuel ->
    forall extra,
      splitPdf_loop (extra + fuel) total doc chunkSize start chunks s = (o, s').
Proof.
  induction fuel as [|fuel IH]; intros start chunks s o s' H Ho extra.
  - injection H as <- <-. now elim Ho.
  - rewrite Nat.add_succ_r. simpl in H |- *.
    destruct (start <? total); [|exact H].
    unfold bind in H |- *.
    destruct (copyPages doc
                (Array_from (Nat.min (start + chunkSize) total - start)
                   (fun i => i + start)) s) as [[pages|e|] s1];
      [|exact H|exact H].
    now apply IH.
Qed.

(** The pages a chain of full chunks and a final chunk covers. *)
Lemma chain_chunk_count (total size : nat) a ranges b :
  chain a ranges b ->
  ranges <> [] ->
  chunk_lengths total size ranges ->
  b = a + (List.length ranges - 1) * size + final_len total size
  /\ Forall (fun r => range_len r = size \/ range_len r = final_len total size)
       ranges.
Proof.
  induction 1 as [a | a b rest c Hab Hch IH]; intros Hne Hlen; [contradiction|].
  destruct rest as [|r rest].
  - inversion Hch; subst. simpl in Hlen. unfold range_len in Hlen. simpl in *.
    split; [lia|]. constructor; [|constructor]. right. exact Hlen.
  - destruct Hlen as [Hfirst Hrest].
    destruct (IH ltac:(discriminate) Hrest) as [Hsum Hall].
    unfold range_len in Hfirst. simpl in Hfirst.
    split.
    + rewrite Hsum. simpl List.length. simpl. lia.
    + constructor; [left; exact Hfirst|exact Hall].
Qed.

Lemma final_len_bounds (total size : nat) :
  0 < size -> 1 <= final_len total size <= size.
Proof.
  intros Hsize. unfold final_len.
  pose proof (Nat.mod_upper_bound total size ltac:(lia)).
  destruct (Nat.eqb_spec (total mod size) 0); lia.
Qed.

Lemma splitPdf_chunks_of (fuel : nat) (doc : PDFDocument) (chunkSize : nat)
        (s : state) :
  0 < chunkSize ->
  0 < getPageCount doc ->
  getPageCount doc < fuel ->
  exists ranges : list (nat * nat),
    splitPdf fuel (getPageCount doc) doc chunkSize s
    = (Ok (map (fun r => save (extract doc r)) ranges), s)
    /\ chain 0 ranges (getPageCount doc)
    /\ List.length ranges = (getPageCount doc + chunkSize - 1) / chunkSize
    /\ Forall (fun r => 1 <= getPageCount (extract doc r) <= chunkSize) ranges.
Proof.
  intros Hsize Hpages Hfuel.
  destruct (@splitPdf_loop_ranges P doc chunkSize Hsize fuel 0 [] s)
    as (ranges & Hrun & Hne & Hch & Hlen); [simpl; lia|simpl; lia|].
  simpl in Hrun, Hch.
  exists ranges. split; [exact Hrun|]. split; [exact Hch|].
  destruct (@chain_chunk_count (getPageCount doc) chunkSize _ _ _ Hch Hne Hlen)
    as [Hsum Hall].
  pose proof (@final_len_bounds (getPageCount doc) chunkSize Hsize) as Hfinal.
  split.
  - apply (Nat.div_unique _ _ _ (final_len (getPageCount doc) chunkSize - 1));
      [lia|].
    destruct ranges as [|r ranges]; [contradiction|].
    simpl List.length in *. nia.
  - pose proof (chain_bounds Hch) as Hbounds.
    rewrite Forall_forall in *. intros [a b] Hin.
    specialize (Hall _ Hin). specialize (Hbounds _ Hin).
    unfold range_len in Hall. simpl in *.
    assert (Hcount : getPageCount (extract doc (a, b)) = b - a).
    { unfold getPageCount, extract. simpl. apply slice_length.
      unfold getPageCount in Hbounds. lia. }
    rewrite Hcount. lia.
Qed.

(** X6. [splitPdf] for any chunk size of at least one page, on a document
    with pages and with enough fuel: the chunks are those of a chain of
    ranges from the first page to the last; there are as many as the page
    count divided by the chunk size, rounded up; and no chunk is empty or
    longer than the chunk size. *)
Theorem splitPdf_chunk_count (fuel : nat) (doc : PDFDocument) (chunkSize : nat)
        (s : state) :
  0 < chunkSize ->
  0 < getPageCount doc ->
  getPageCount doc < fuel ->
  exists ranges : list (nat * nat),
    splitPdf fuel (getPageCount doc) doc chunkSize s
    = (Ok (map (fun r => save (extract doc r)) ranges), s)
    /\ chain 0 ranges (getPageCount doc)
    /\ List.length ranges = (getPageCount doc + chunkSize - 1) / chunkSize
    /\ Forall (fun r => 1 <= getPageCount (extract doc r) <= chunkSize) ranges.
Proof. apply splitPdf_chunks_of. Qed.

Lemma splitPdf_loop_zero (doc : PDFDocument) (s : state) :
  forall fuel start chunks,
    start < getPageCount doc ->
    splitPdf_loop fuel (getPageCount doc) doc 0 start chunks s = (OutOfFuel, s).
Proof.
  induction fuel as [|fuel IH]; intros start chunks Hlt; [reflexivity|].
  rewrite splitPdf_loop_step by exact Hlt.
  rewrite Nat.add_0_r. now apply IH.
Qed.

(** X8. With a chunk size of 0 the loop of [splitPdf] never ends on a document
    that has a page: [start] stays where it is, and every amount of fuel
    runs out. *)
Theorem splitPdf_zero_chunk_diverges (fuel : nat) (doc : PDFDocument)
        (s : state) :
  0 < getPageCount doc ->
  splitPdf fuel (getPageCount doc) doc 0 s = (OutOfFuel, s).
Proof. intros Hpages. now apply splitPdf_loop_zero. Qed.

Lemma pdfBuffers_safe (fuel : nat) (pdfBuffer : Buffer) (masterDoc : PDFDocument)
      (s s' : state) (o : outcome (list Buffer)) :
  pdfBuffers fuel pdfBuffer masterDoc s = (o, s') ->
  s' = s /\ forall e, o <> Threw e.
Proof.
  unfold pdfBuffers, splitPdf.
  destruct (500 <? getPageCount masterDoc).
  - apply splitPdf_loop_safe.
  - intros [= <- <-]. split; [reflexivity|discriminate].
Qed.

(** The number of chunks the handler makes of a document. *)
Lemma pdfBuffers_length (fuel : nat) (pdfBuffer : Buffer) (masterDoc : PDFDocument)
      (s s' : state) (bufs : list Buffer) :
  pdfBuffers fuel pdfBuffer masterDoc s = (Ok bufs, s') ->
  List.length bufs
  = if 500 <? getPageCount masterDoc
    then (getPageCount masterDoc + 99) / 100
    else 1.
Proof.
  unfold pdfBuffers, splitPdf, default_chunkSize.
  destruct (Nat.ltb_spec 500 (getPageCount masterDoc)) as [Hbig|Hsmall].
  - intros H.
    eapply splitPdf_loop_more_fuel with (extra := S (getPageCount masterDoc))
      in H; [|discriminate].
    destruct (@splitPdf_chunks_of (S (getPageCount masterDoc) + fuel)
                masterDoc 100 s ltac:(lia) ltac:(lia) ltac:(lia))
      as (ranges & Hrun & _ & Hlen & _).
    unfold splitPdf in Hrun. rewrite Hrun in H. injection H as <- _.
    rewrite length_map, Hlen. f_equal. lia.
  - intros [= <- _]. reflexivity.
Qed.

End SplitterFacts.

(** X6 at a concrete input. [splitPdf] on a document of 650 pages: seven
    chunks. *)
Lemma splitPdf_chunk_count_witness :
  exists ranges : list (nat * nat),
    splitPdf 651 650 (Demo.document 650) 100 (Demo.start [])
    = (Ok (map (fun r => save (extract (Demo.document 650) r)) ranges),
       Demo.start [])
    /\ List.length ranges = 7.
Proof.
  assert (Hsize : 0 < 100) by (apply Nat.ltb_lt; reflexivity).
  assert (Hpages : 0 < getPageCount (Demo.document 650))
    by (apply Nat.ltb_lt; reflexivity).
  assert (Hfuel : getPageCount (Demo.document 650) < 651)
    by (apply Nat.ltb_lt; reflexivity).
  destruct (@splitPdf_chunk_count Demo.platform 651 (Demo.document 650) 100
              (Demo.start []) Hsize Hpages Hfuel)
    as (ranges & Hrun & _ & Hlen & _).
  exists ranges. split; [exact Hrun|exact Hlen].
Defined.

(** X7 at a concrete input. [splitPdf] with too little fuel for a document
    of 650 pages: the outcome is no exception. *)
Lemma splitPdf_never_throws_witness :
  snd (splitPdf 3 650 (Demo.document 650) 100 (Demo.start [])) = Demo.start [].
Proof.
  exact (proj1 (@splitPdf_never_throws Demo.platform 3 (Demo.document 650) 100
                  (Demo.start []) _ _ (surjective_pairing _))).
Defined.

Section Fuel.

Context {P : Platform}.

Lemma pdfBuffers_enough_fuel (pdfBuffer : Buffer) (masterDoc : PDFDocument)
      (s : state) :
  exists bufs,
    forall fuel, getPageCount masterDoc < fuel ->
                 pdfBuffers fuel pdfBuffer masterDoc s = (Ok bufs, s).
Proof.
  unfold pdfBuffers, splitPdf, default_chunkSize.
  destruct (Nat.ltb_spec 500 (getPageCount masterDoc)) as [Hbig|Hsmall].
  - destruct (@splitPdf_loop_ranges P masterDoc 100 ltac:(lia)
                (S (getPageCount masterDoc)) 0 [] s)
      as (ranges & Hrun & _); [simpl; lia|simpl; lia|].
    simpl in Hrun.
    exists (map (fun r => save (extract masterDoc r)) ranges).
    intros fuel Hfuel.
    replace fuel with ((fuel - S (getPageCount masterDoc))
                       + S (getPageCount masterDoc)) by lia.
    apply splitPdf_loop_more_fuel; [exact Hrun|discriminate].
  - exists [pdfBuffer]. reflexivity.
Qed.

Lemma POST_no_form (fuel : nat) (req : NextRequest) (e : exn) (s : state) :
  formData req = inl e -> POST fuel req s = (Threw e, s).
Proof. intros Hfd. unfold POST. rewrite Hfd. reflexivity. Qed.

Lemma POST_no_file (fuel : nat) (req : NextRequest) (fd : FormData) (s : state) :
  formData req = inr fd ->
  (forall file, FormData_get fd (JsString.lit "file") <> Some (EntryFile file)) ->
  POST fuel req s = (Ok missing_file_response, s).
Proof.
  intros Hfd Hnofile. unfold POST. rewrite Hfd. unfold bind at 1. simpl.
  destruct (FormData_get fd (JsString.lit "file")) as [[file|str]|] eqn:E;
    try reflexivity.
  now elim (Hnofile file).
Qed.

Lemma POST_no_document (fuel : nat) (req : NextRequest) (fd : FormData)
      (file : File) (e : exn) (s : state) :
  formData req = inr fd ->
  FormData_get fd (JsString.lit "file") = Some (EntryFile file) ->
  PDFDocument_load (file_bytes file) = inl e ->
  POST fuel req s = (Threw e, s).
Proof.
  intros Hfd Hget Hload.
  unfold POST. rewrite Hfd. unfold bind at 1. simpl. rewrite Hget.
  unfold bind at 1, load. rewrite Hload. reflexivity.
Qed.

(** X3. The handler terminates: for every request and state there is an
    amount of fuel from which on the loop of [splitPdf] never runs out, and
    the handler's outcome and final state no longer depend on the fuel. *)
Theorem POST_terminates (req : NextRequest) (s : state) :
  exists n,
    (forall s', POST n req s <> (OutOfFuel, s'))
    /\ forall fuel, n <= fuel -> POST fuel req s = POST n req s.
Proof.
  destruct (formData req) as [e|fd] eqn:Hfd.
  { exists 0. split; [intros s'|intros fuel _];
      rewrite !(POST_no_form _ _ _ Hfd); [discriminate|reflexivity]. }
  destruct (FormData_get fd (JsString.lit "file")) as [[file|str]|] eqn:Hget.
  2,3: assert (Hnofile : forall file, FormData_get fd (JsString.lit "file")
                                      <> Some (EntryFile file))
         by (intros file Hfile;
             pose proof (eq_trans (eq_sym Hget) Hfile) as E; discriminate E);
       exists 0; split; [intros s'|intros fuel _];
       rewrite !(POST_no_file _ _ _ Hfd Hnofile); [discriminate|reflexivity].
  destruct (PDFDocument_load (file_bytes file)) as [e|pages] eqn:Hload.
  { exists 0. split; [intros s'|intros fuel _];
      rewrite !(POST_no_document _ _ _ Hfd Hget Hload);
      [discriminate|reflexivity]. }
  destruct (pdfBuffers_enough_fuel (file_bytes file) (mkDoc pages) s)
    as (bufs & Hbufs).
  exists (S (getPageCount (mkDoc pages))).
  assert (Hrun : forall fuel,
             getPageCount (mkDoc pages) < fuel ->
             POST fuel req s
             = bind (aggregate generateFlashCardsFromPDF bufs)
                 (fun allCards => ret (csv_response allCards)) s).
  { intros fuel Hfuel. erewrite POST_with_file by eassumption.
    erewrite bind_ok by (apply Hbufs; exact Hfuel). reflexivity. }
  split.
  - intros s' H. rewrite Hrun in H by lia. unfold bind in H.
    destruct (aggregate generateFlashCardsFromPDF bufs s)
      as [[allCards|e|] s1] eqn:Hagg; try discriminate.
    destruct (aggregate_from_calls _ _ _ Hagg) as (k & _ & _ & _ & _ & Hno).
    now elim Hno.
  - intros fuel Hfuel. rewrite !Hrun by lia. reflexivity.
Qed.

(** X4. The service is asked at most once for a document of at most 500
    pages and at most once per 100 pages, rounded up, for a longer one,
    whatever the outcome of the request; a request that is answered has
    used exactly that many calls. *)
Theorem POST_call_budget (fuel : nat) (req : NextRequest) (fd : FormData)
        (file : File) (pages : list Page) (s s' : state)
        (o : outcome Response) :
  formData req = inr fd ->
  FormData_get fd (JsString.lit "file") = Some (EntryFile file) ->
  PDFDocument_load (file_bytes file) = inr pages ->
  POST fuel req s = (o, s') ->
  let budget :=
    if 500 <? List.length pages then (List.length pages + 99) / 100 else 1 in
  List.length (calls s') <= List.length (calls s) + budget
  /\ (forall resp, o = Ok resp ->
                   List.length (calls s') = List.length (calls s) + budget).
Proof.
  intros Hfd Hget Hload H budget.
  erewrite POST_with_file in H by eassumption. unfold bind at 1 in H.
  destruct (pdfBuffers fuel (file_bytes file) (mkDoc pages) s)
    as [[bufs|e|] s0] eqn:Hsplit.
  - destruct (pdfBuffers_safe _ _ _ _ Hsplit) as [-> _].
    apply pdfBuffers_length in Hsplit.
    change (List.length bufs = budget) in Hsplit. clearbody budget.
    unfold bind in H.
    destruct (aggregate generateFlashCardsFromPDF bufs s)
      as [[allCards|e|] s1] eqn:Hagg;
      destruct (aggregate_from_calls _ _ _ Hagg)
        as (k & Hk & Hcalls & Hok & _ & _);
      injection H as <- <-; rewrite Hcalls, length_app, length_firstn.
    + specialize (Hok _ eq_refl). split; [lia|]. intros resp _. lia.
    + split; [lia|discriminate].
    + split; [lia|discriminate].
  - destruct (pdfBuffers_safe _ _ _ _ Hsplit) as [-> _].
    injection H as <- <-. split; [lia|discriminate].
  - destruct (pdfBuffers_safe _ _ _ _ Hsplit) as [-> _].
    injection H as <- <-. split; [lia|discriminate].
Qed.

End Fuel.

(** X4 at a concrete input. The budget of a document of 650 pages is seven
    calls; the request whose fourth call fails has used four. *)
Lemma POST_call_budget_witness :
  List.length (calls (snd (POST 8 (Demo.upload (Demo.pdf_bytes 650))
                             (Demo.start Demo.fourth_fails))))
  <= 0 + 7.
Proof.
  exact (proj1 (@POST_call_budget Demo.platform 8
                  (Demo.upload (Demo.pdf_bytes 650)) _ _ _
                  (Demo.start Demo.fourth_fails) _ _
                  eq_refl eq_refl eq_refl (surjective_pairing _))).
Defined.

(** X8 at a concrete input. [splitPdf] with chunk size 0 on a document of
    two pages. *)
Lemma splitPdf_zero_chunk_diverges_witness :
  splitPdf 1000 2 (Demo.document 2) 0 (Demo.start [])
  = (OutOfFuel, Demo.start []).
Proof.
  apply (@splitPdf_zero_chunk_diverges Demo.platform 1000 (Demo.document 2)).
  apply Nat.ltb_lt. reflexivity.
Defined.

(* ================================================================== *)
(** ** Further properties: the serializer *)

Section SerializerFacts.

Lemma spec_escape_app (s t : jsstring) :
  spec_escape (s ++ t) = spec_escape s ++ spec_escape t.
Proof.
  induction s as [|x s IH]; [reflexivity|].
  simpl. destruct (N.eqb x dq); simpl; now rewrite IH.
Qed.

Lemma spec_escape_length (s : jsstring) :
  List.length (spec_escape s) = List.length s + count_occ N.eq_dec s dq.
Proof.
  induction s as [|x s IH]; [reflexivity|].
  simpl spec_escape. destruct (N.eqb x dq) eqn:E.
  - apply N.eqb_eq in E. subst x.
    rewrite count_occ_cons_eq by reflexivity. simpl.
    unfold jsstring, JsString.t, JsString.code_unit in *. rewrite IH. lia.
  - apply N.eqb_neq in E.
    rewrite count_occ_cons_neq by exact E. simpl.
    unfold jsstring, JsString.t, JsString.code_unit in *. now rewrite IH.
Qed.

Lemma spec_escape_no_quote (s : jsstring) :
  count_occ N.eq_dec s dq = 0 -> spec_escape s = s.
Proof.
  induction s as [|x s IH]; [reflexivity|].
  intros H. simpl. destruct (N.eqb x dq) eqn:E.
  - apply N.eqb_eq in E. subst x.
    rewrite count_occ_cons_eq in H by reflexivity. discriminate.
  - apply N.eqb_neq in E.
    rewrite count_occ_cons_neq in H by exact E. now rewrite IH.
Qed.

(** X12. Escaping goes through concatenation, lengthens a text by the number
    of its quotes, and leaves a text as it is exactly when the text has no
    quote. *)
Theorem escape_structure :
  (forall s t : jsstring, escape (s ++ t) = escape s ++ escape t)
  /\ (forall s : jsstring,
        List.length (escape s) = List.length s + count_occ N.eq_dec s dq)
  /\ (forall s : jsstring,
        escape s = s <-> count_occ N.eq_dec s dq = 0).
Proof.
  split; [|split].
  - intros s t. rewrite !escape_is_spec_escape. apply spec_escape_app.
  - intros s. rewrite escape_is_spec_escape. apply spec_escape_length.
  - intros s. rewrite escape_is_spec_escape. split.
    + intros H. pose proof (spec_escape_length s) as Hlen.
      rewrite H in Hlen.
      unfold jsstring, JsString.t, JsString.code_unit in *. lia.
    + apply spec_escape_no_quote.
Qed.

Lemma csv_app (c1 : Card) (r1 : list Card) (c2 : Card) (r2 : list Card) :
  csv ((c1 :: r1) ++ c2 :: r2)
  = csv (c1 :: r1) ++ JsString.newline :: csv (c2 :: r2).
Proof.
  rewrite !csv_is_spec_serialize.
  revert c1. induction r1 as [|c r1 IH]; intros c1.
  - reflexivity.
  - change (spec_serialize ((c1 :: c :: r1) ++ c2 :: r2))
      with (spec_line c1 ++ JsString.newline
              :: spec_serialize ((c :: r1) ++ c2 :: r2)).
    rewrite IH.
    change (spec_serialize (c1 :: c :: r1))
      with (spec_line c1 ++ JsString.newline :: spec_serialize (c :: r1)).
    now rewrite <- app_assoc.
Qed.

Lemma join_two (sep x y : jsstring) (l : list jsstring) :
  JsString.join sep (x :: y :: l) = x ++ sep ++ JsString.join sep (y :: l).
Proof. rewrite !join_cons. simpl. now rewrite <- !app_assoc. Qed.

Lemma concat_nonempty (batches : list (list Card)) :
  filter nonempty batches = [] <-> List.concat batches = [].
Proof.
  induction batches as [|b rest IH]; [now split|].
  destruct b as [|c b]; simpl.
  - exact IH.
  - split; discriminate.
Qed.

(** X13. The text for the aggregated records is the texts of the batches that
    hold a card, joined by single newlines: serializing after the loop
    gives what joining per-chunk texts would give. *)
Theorem csv_of_batches (batches : list (list Card)) :
  csv (List.concat batches)
  = JsString.join [JsString.newline] (map csv (filter nonempty batches)).
Proof.
  induction batches as [|b rest IH]; [reflexivity|].
  destruct b as [|c b]; [exact IH|].
  simpl filter. simpl map.
  destruct (filter nonempty rest) as [|b' rest'] eqn:Hrest.
  - apply concat_nonempty in Hrest.
    simpl List.concat. rewrite Hrest, app_nil_r.
    unfold JsString.join. simpl. reflexivity.
  - simpl map in *. rewrite join_two, <- IH.
    destruct (List.concat rest) as [|c' r'] eqn:Hcat.
    + apply concat_nonempty in Hcat. congruence.
    + simpl List.concat. rewrite Hcat. apply csv_app.
Qed.

End SerializerFacts.

(* ================================================================== *)
(** ** Further properties: the two schemas of [actions.ts] *)

Section Schemas.

Lemma get_prop_absent (props : list (jsstring * value)) (key : jsstring) :
  has_prop props key = false -> get_prop props key = VUndefined.
Proof.
  unfold has_prop. induction props as [|[k v] props IH]; [reflexivity|].
  simpl. destruct (JsString.eqb k key); [discriminate|exact IH].
Qed.

Lemma get_prop_present (props : list (jsstring * value)) (key : jsstring) :
  get_prop props key <> VUndefined -> has_prop props key = true.
Proof.
  intros H. destruct (has_prop props key) eqn:E; [reflexivity|].
  now apply get_prop_absent in E.
Qed.

Lemma conforms_string (v : value) :
  conforms string_schema v = true <-> exists s, v = VString s.
Proof.
  split.
  - destruct v; try discriminate. intros _. now eexists.
  - now intros [s ->].
Qed.

Lemma conforms_eq (sch : Schema) (v : value) :
  conforms sch v
  = match sch with
    | Sch t required properties items =>
        type_ok t v
        && match v with
           | VObject props =>
               forallb (has_prop props) required
               && forallb
                    (fun ks =>
                       match ks with
                       | (k, s) =>
                           if has_prop props k then conforms s (get_prop props k)
                           else true
                       end)
                    properties
           | VArray elements =>
               match items with
               | Some s => forallb (conforms s) elements
               | None => true
               end
           | _ => true
           end
    end.
Proof. destruct sch; reflexivity. Qed.

(** The schema of the array's items. *)
Lemma conforms_item (v : value) :
  conforms
    (Sch OBJECT [JsString.lit "question"; JsString.lit "answer"]
       [(JsString.lit "question", string_schema);
        (JsString.lit "answer", string_schema)] None) v = true
  <-> exists c, has_card v c.
Proof.
  unfold has_card. rewrite conforms_eq. split.
  - destruct v as [ | | | | |items|props]; try discriminate.
    cbn [type_ok forallb andb fst snd].
    destruct (has_prop props (JsString.lit "question")); [|discriminate].
    destruct (has_prop props (JsString.lit "answer")); [|discriminate].
    cbn [andb].
    destruct (conforms string_schema (get_prop props (JsString.lit "question")))
      eqn:Eq; [|discriminate].
    destruct (conforms string_schema (get_prop props (JsString.lit "answer")))
      eqn:Ea; [|discriminate].
    intros _. apply conforms_string in Eq, Ea.
    destruct Eq as [q Eq], Ea as [a Ea].
    exists (mkCard q a), props. now repeat split.
  - intros (c & props & -> & Hq & Ha).
    cbn [type_ok forallb andb fst snd].
    rewrite !get_prop_present by (rewrite ?Hq, ?Ha; discriminate).
    cbn [andb]. rewrite Hq, Ha. reflexivity.
Qed.

Lemma conforms_items (f : value -> bool) (items : list value) :
  (forall v, f v = true <-> exists c, has_card v c) ->
  forallb f items = true <-> exists cards, Forall2 has_card items cards.
Proof.
  intros Hf. induction items as [|v items IH]; simpl.
  - split; [intros _; exists []; constructor|reflexivity].
  - rewrite andb_true_iff, Hf, IH. split.
    + intros [[c Hc] [cards Hcards]]. exists (c :: cards). now constructor.
    + intros [cards H]. inversion H as [|v' c items' cards' Hc Hrest]; subst.
      split; [now exists c|now exists cards'].
Qed.

(** X11. The schema the service is asked to follow and the validator applied
    to its answer accept the same values. *)
Theorem responseSchema_agrees (v : value) :
  conforms responseSchema v = true
  <-> exists cards, FlashCardsArray v = Some (mkFlashCards cards).
Proof.
  assert (Hcards : conforms responseSchema v = true
                   <-> exists cards, has_cards v cards).
  { unfold has_cards, responseSchema. rewrite conforms_eq. split.
    - destruct v as [ | | | | |items|props]; try discriminate.
      cbn [type_ok forallb andb fst snd].
      destruct (has_prop props (JsString.lit "flashcard")); [|discriminate].
      cbn [andb]. rewrite andb_true_r.
      rewrite conforms_eq.
      destruct (get_prop props (JsString.lit "flashcard"))
        as [ | | | | |items| ] eqn:E; try discriminate.
      cbn [type_ok andb]. intros H.
      apply (@conforms_items _ _ conforms_item) in H. destruct H as [cards H].
      exists cards, props, items. now repeat split.
    - intros (cards & props & items & -> & Hget & Hall).
      cbn [type_ok forallb andb fst snd].
      rewrite get_prop_present by (rewrite Hget; discriminate).
      cbn [andb]. rewrite andb_true_r, conforms_eq, Hget. cbn [type_ok andb].
      apply (@conforms_items _ _ conforms_item). now exists cards. }
  rewrite Hcards. split; intros [cards H]; exists cards;
    now apply FlashCardsArray_spec.
Qed.

End Schemas.

(* ================================================================== *)
(** ** Further properties: the page's submit handler *)

Section PageFacts.

Context {B : Client.Browser}.

Lemma skipn_own_length {A} (l l' : list A) : skipn (List.length l) (l ++ l') = l'.
Proof. induction l as [|x l IH]; [reflexivity|exact IH]. Qed.

(** What a submit with a chosen file does, by the fate of the request. *)
Lemma handleSubmit_with_file (file : File) (p : Client.page) :
  let r := Client.fetch Client.api Client.post (Client.submitted_form file) (Client.net p) in
  let request := Client.EvFetch Client.api Client.post (Client.submitted_form file) in
  Client.handleSubmit (Some file) p
  = Client.mkPage false (snd r)
      (Client.log p
         ++ [Client.EvPreventDefault; Client.EvSetBusy true; request]
         ++ match Client.failure_of (fst r) with
            | Some err =>
                [Client.EvConsoleError err; Client.EvAlert Client.went_wrong]
            | None =>
                match fst r with
                | inr res =>
                    let url := Client.createObjectURL (body res) in
                    let a := Client.mkAnchor url (JsString.lit "flashcards.csv") in
                    [Client.EvCreateObjectURL (body res); Client.EvAppendChild a;
                     Client.EvClick a; Client.EvRemoveChild a;
                     Client.EvRevokeObjectURL url]
                | inl _ => []
                end
            end
         ++ [Client.EvSetBusy false]).
Proof.
  unfold Client.handleSubmit, Client.try_block, Client.do_fetch, Client.failure_of,
    Client.not_ok_error, Client.api, Client.post, Client.save_as_file,
    Client.setBusy, Client.emit.
  cbn [Client.net Client.busy Client.log].
  destruct (Client.fetch (JsString.lit "/api/flashcards") (JsString.lit "POST")
              (Client.submitted_form file) (Client.net p)) as [[err|res] n].
  - cbn [fst snd Client.net Client.busy Client.log].
    f_equal. now rewrite <- !app_assoc.
  - cbn [fst snd]. destruct (Client.ok res);
      cbn [negb fst snd Client.net Client.busy Client.log];
      f_equal; now rewrite <- !app_assoc.
Qed.

Lemma added_with_file (file : File) (p : Client.page) :
  let r := Client.fetch Client.api Client.post (Client.submitted_form file)
             (Client.net p) in
  Client.added (Some file) p
  = [Client.EvPreventDefault; Client.EvSetBusy true;
     Client.EvFetch Client.api Client.post (Client.submitted_form file)]
      ++ match Client.failure_of (fst r) with
         | Some err =>
             [Client.EvConsoleError err; Client.EvAlert Client.went_wrong]
         | None =>
             match fst r with
             | inr res =>
                 let url := Client.createObjectURL (body res) in
                 let a := Client.mkAnchor url (JsString.lit "flashcards.csv") in
                 [Client.EvCreateObjectURL (body res); Client.EvAppendChild a;
                  Client.EvClick a; Client.EvRemoveChild a;
                  Client.EvRevokeObjectURL url]
             | inl _ => []
             end
         end
      ++ [Client.EvSetBusy false].
Proof.
  intros r. unfold Client.added. rewrite handleSubmit_with_file.
  cbn [Client.log]. apply skipn_own_length.
Qed.

(** X14. A submit sends one request when a file is chosen, a POST to the API
    route whose form holds the file under [file], and none otherwise; with
    a file it ends with [busy] false whatever became of the request;
    without one it shows one alert and touches neither [busy] nor the
    network. *)
Theorem handleSubmit_one_request (file : option File) (p : Client.page) :
  filter Client.is_fetch (Client.added file p)
  = match file with
    | Some f => [Client.EvFetch Client.api Client.post (Client.submitted_form f)]
    | None => []
    end
  /\ Client.busy (Client.handleSubmit file p)
     = match file with Some _ => false | None => Client.busy p end
  /\ match file with
     | Some _ => True
     | None =>
         Client.net (Client.handleSubmit file p) = Client.net p
         /\ Client.added file p
            = [Client.EvPreventDefault; Client.EvAlert Client.choose_first]
     end.
Proof.
  destruct file as [file|].
  - split; [|split; [|exact I]].
    + rewrite added_with_file.
      destruct (Client.fetch Client.api Client.post (Client.submitted_form file)
                  (Client.net p)) as [[err|res] n]; cbn [fst Client.failure_of].
      * reflexivity.
      * destruct (Client.ok res); reflexivity.
    + now rewrite handleSubmit_with_file.
  - assert (Hadded : Client.added None p
                     = [Client.EvPreventDefault; Client.EvAlert Client.choose_first]).
    { unfold Client.added, Client.handleSubmit, Client.emit.
      cbn [Client.log]. rewrite <- app_assoc. apply skipn_own_length. }
    rewrite Hadded. repeat split.
Qed.

(** X15. With a file chosen, the browser is made to save a file exactly when
    the request is answered with a status from 200 to 299, and an alert is
    shown exactly when it is not. The saved file is named flashcards.csv
    and holds the response's body; what goes to the console is the value
    the request threw, or an error that names the response's status and
    body. *)
Theorem handleSubmit_download_or_alert (file : File) (p : Client.page) :
  let r := Client.fetch Client.api Client.post (Client.submitted_form file)
             (Client.net p) in
  let evs := Client.added (Some file) p in
  existsb Client.is_click evs
  = match fst r with inr res => Client.ok res | inl _ => false end
  /\ existsb Client.is_alert evs = negb (existsb Client.is_click evs)
  /\ (forall a, In (Client.EvClick a) evs ->
                exists res,
                  fst r = inr res
                  /\ In (Client.EvCreateObjectURL (body res)) evs
                  /\ a = Client.mkAnchor (Client.createObjectURL (body res))
                           (JsString.lit "flashcards.csv"))
  /\ (forall err, In (Client.EvConsoleError err) evs ->
                  fst r = inl err
                  \/ exists res,
                       fst r = inr res /\ Client.ok res = false
                       /\ err = Client.not_ok_error res).
Proof.
  intros r evs. subst evs. rewrite added_with_file. fold r.
  destruct (fst r) as [err|res] eqn:Hr; cbn [Client.failure_of].
  - repeat split.
    + intros a Ha. simpl in Ha. intuition discriminate.
    + intros e He. simpl in He. left.
      destruct He as [He|[He|[He|[He|[He|[He|[]]]]]]]; try discriminate He.
      now injection He as ->.
  - destruct (Client.ok res) eqn:Hok.
    + repeat split.
      * intros a Ha. exists res. split; [reflexivity|]. split; [simpl; tauto|].
        simpl in Ha.
        destruct Ha as [Ha|[Ha|[Ha|[Ha|[Ha|[Ha|[Ha|[Ha|[Ha|[]]]]]]]]]];
          try discriminate Ha.
        now injection Ha as <-.
      * intros e He. simpl in He. intuition discriminate.
    + repeat split.
      * intros a Ha. simpl in Ha. intuition discriminate.
      * intros e He. simpl in He. right. exists res.
        split; [reflexivity|]. split; [exact Hok|].
        destruct He as [He|[He|[He|[He|[He|[He|[]]]]]]]; try discriminate He.
        now injection He as <-.
Qed.

End PageFacts.

(** X16. A request that carries the form the page builds is never answered
    400: the handler finds the file under [file], so that a response of
    its own, if there is one, is the 200 response with a CSV text. *)
Theorem page_request_has_file {P : Platform} (fuel : nat) (file : File)
        (s s' : state) (resp : Response) :
  POST fuel (mkRequest (inr (Client.submitted_form file))) s = (Ok resp, s') ->
  status resp = 200 /\ exists allCards, resp = csv_response allCards.
Proof.
  intros H. destruct (POST_ok_inv _ _ _ H)
    as [(_ & _ & _ & fd & Hfd & Hnofile)|(allCards & -> & Hstatus)].
  - simpl in Hfd. injection Hfd as <-.
    now elim (Hnofile (mkFile (file_name file) (file_bytes file))).
  - split; [exact Hstatus|now exists allCards].
Qed.

(** X16 at a concrete input. The page's form for a file of two pages, on a
    service with one answer. *)
Lemma page_request_has_file_witness :
  status (csv_response [Demo.card1]) = 200
  /\ exists allCards, csv_response [Demo.card1] = csv_response allCards.
Proof.
  exact (@page_request_has_file Demo.platform 0 Scenario.notes
           (Demo.start [inr (Some Demo.text1)]) _ _ eq_refl).
Defined.
